(** * Idempotent operation lifecycle of final_server_project

    A shallow embedding of the ledger, orchestration, reconciliation and
    session-rotation code of the FastAPI service ([app/repositories],
    [app/services], [app/maintenance], [app/utils/fingerprint_hashing.py]).

    Database tables are lists of records; an SQL [UPDATE ... WHERE ...] is a
    [map] that rewrites the matching rows, [RETURNING] is the list of rewritten
    rows and [scalar_one_or_none]/[fetchone] take its head.  The async service
    code is a state-and-error monad over the whole store (database tables plus
    filesystem).  Times are integers (seconds). *)

From Stdlib Require Import String List ZArith Bool Lia Permutation Sorted QArith.
#[global] Set Warnings "-register-all".
Import ListNotations.
Open Scope Z_scope.
Open Scope string_scope.

(** ** Data model ([app/models]) *)

(** [RowStatus] in [app/models/enums.py]. *)
Inductive RowStatus := pending | applied | failed.

Definition RowStatus_eqb (a b : RowStatus) : bool :=
  match a, b with
  | pending, pending | applied, applied | failed, failed => true
  | _, _ => false
  end.

(** [ActionType.cost]. *)
Inductive ActionType := TRAINING | METADATA | PREDICTION | ASSIST.

Definition cost (a : ActionType) : Z :=
  match a with TRAINING => 10 | METADATA => 1 | PREDICTION => 5 | ASSIST => 2 end.

(** [users] (orm_models/users.py), the columns the ledger touches. *)
Record User := mkUser { u_id : nat; u_tokens : Z; u_is_active : bool }.

(** [trained_models]. *)
Record TrainedModel := mkTM {
  tm_id : nat; tm_user_id : nat; tm_fingerprint : string;
  tm_status : RowStatus; tm_metrics : option string; tm_model_path : string }.

(** [predictions]. *)
Record Prediction := mkPred {
  p_id : nat; p_user_id : nat; p_model_id : nat; p_fingerprint : string;
  p_status : RowStatus; p_prediction_result : string }.

(** [token_credits]. *)
Record TokenCredit := mkTC {
  tc_user_id : nat; tc_key : string; tc_status : RowStatus;
  tc_open_balance : option Z }.

(** [auth_sessions]. *)
Record AuthSession := mkAS {
  s_session_id : string; s_user_id : nat; s_refresh_token_hash : string;
  s_last_token_hash : option string; s_revoked : bool;
  s_expires_at : Z; s_absolute_expires_at : Z }.

(** The filesystem the artifacts live in: existing files, and the paths an
    [os.replace]/[os.remove] on which raises [OSError]/[PermissionError]. *)
Record FS := mkFS { fs_files : list string; fs_locked : list string }.

Record Store := mkStore {
  users : list User;
  trained_models : list TrainedModel;
  predictions : list Prediction;
  token_credits : list TokenCredit;
  auth_sessions : list AuthSession;
  next_id : nat;          (** the serial primary-key sequence *)
  fs : FS;
  compute_runs : nat      (** worker processes / predictor threads started *)
}.

(** Exceptions of [app/exceptions] that the modelled code raises. *)
Inductive AppError :=
| NotEnoughTokensException
| BalanceMustBeZeroException
| PurchaseInProgressException
| TrainModelInProgressException
| TrainingFailedException
| ArtifactWriteException
| PredictionInProgressException
| PredictionFailedException
| ModelNotFoundException
| ArtifactMissingException
| InvalidTokenException
| ReusedTokenException
| ExpiredTokenException
| NoResultFound.

(** ** A state-and-error monad for the async service code *)

Definition M (A : Type) := Store -> (AppError + A) * Store.

Definition ret {A} (a : A) : M A := fun s => (inr a, s).
Definition raise {A} (e : AppError) : M A := fun s => (inl e, s).
Definition bind {A B} (m : M A) (k : A -> M B) : M B :=
  fun s => match m s with
           | (inl e, s') => (inl e, s')
           | (inr a, s') => k a s'
           end.
Definition get : M Store := fun s => (inr s, s).
Definition put (s : Store) : M unit := fun _ => (inr tt, s).

Notation "x <- c ;; k" := (bind c (fun x => k))
  (at level 61, c at next level, right associativity).
Notation "c ;;; k" := (bind c (fun _ => k))
  (at level 61, right associativity).

(** [get_db] (app/database.py): every request handler runs inside
    [async with session.begin(): yield session]; the transaction commits when
    the handler returns and rolls back when it raises (FastAPI throws the
    handler's exception into the dependency at its [yield]). *)
Definition request {A} (m : M A) (s : Store) : (AppError + A) * Store :=
  match m s with
  | (inl e, _) => (inl e, s)
  | (inr a, s') => (inr a, s')
  end.

(** Store updaters. *)
Definition set_users (f : list User -> list User) (s : Store) : Store :=
  mkStore (f (users s)) (trained_models s) (predictions s) (token_credits s)
          (auth_sessions s) (next_id s) (fs s) (compute_runs s).
Definition set_trained_models (f : list TrainedModel -> list TrainedModel) (s : Store) : Store :=
  mkStore (users s) (f (trained_models s)) (predictions s) (token_credits s)
          (auth_sessions s) (next_id s) (fs s) (compute_runs s).
Definition set_predictions (f : list Prediction -> list Prediction) (s : Store) : Store :=
  mkStore (users s) (trained_models s) (f (predictions s)) (token_credits s)
          (auth_sessions s) (next_id s) (fs s) (compute_runs s).
Definition set_token_credits (f : list TokenCredit -> list TokenCredit) (s : Store) : Store :=
  mkStore (users s) (trained_models s) (predictions s) (f (token_credits s))
          (auth_sessions s) (next_id s) (fs s) (compute_runs s).
Definition set_auth_sessions (f : list AuthSession -> list AuthSession) (s : Store) : Store :=
  mkStore (users s) (trained_models s) (predictions s) (token_credits s)
          (f (auth_sessions s)) (next_id s) (fs s) (compute_runs s).
Definition set_fs (f : FS -> FS) (s : Store) : Store :=
  mkStore (users s) (trained_models s) (predictions s) (token_credits s)
          (auth_sessions s) (next_id s) (f (fs s)) (compute_runs s).
Definition bump_id (s : Store) : Store :=
  mkStore (users s) (trained_models s) (predictions s) (token_credits s)
          (auth_sessions s) (S (next_id s)) (fs s) (compute_runs s).
Definition bump_compute (s : Store) : Store :=
  mkStore (users s) (trained_models s) (predictions s) (token_credits s)
          (auth_sessions s) (next_id s) (fs s) (S (compute_runs s)).

(** [UPDATE t SET ... WHERE p RETURNING ...]: rewritten table and returned rows. *)
Definition sql_update {R} (p : R -> bool) (f : R -> R) (t : list R) : list R * list R :=
  (map (fun r => if p r then f r else r) t, map f (filter p t)).

(** ** UserRepository (app/repositories/user_repository.py) *)
Module UserRepository.

Definition with_tokens (u : User) (t : Z) : User := mkUser (u_id u) t (u_is_active u).

(** [get_tokens_by_id]: [select(User.tokens).where(User.id == user_id)].scalar_one() *)
Definition get_tokens_by_id (user_id : nat) : M Z :=
  s <- get ;;
  match find (fun u => Nat.eqb (u_id u) user_id) (users s) with
  | Some u => ret (u_tokens u)
  | None => raise NoResultFound
  end.

(** [add_tokens]: [UPDATE users SET tokens = tokens + amount
    WHERE id = :id AND tokens = 0 AND is_active RETURNING tokens]. *)
Definition add_tokens (user_id : nat) (amount : Z) : M (option Z) :=
  s <- get ;;
  let '(t', ret_rows) :=
    sql_update (fun u => Nat.eqb (u_id u) user_id && (Z.eqb (u_tokens u) 0 && u_is_active u))
               (fun u => with_tokens u (u_tokens u + amount)) (users s) in
  put (set_users (fun _ => t') s) ;;;
  match ret_rows with
  | u :: _ => ret (Some (u_tokens u))
  | [] => ret None
  end.

(** [update_tokens]: [UPDATE users SET tokens = tokens - cost
    WHERE id = :id AND tokens >= cost RETURNING tokens]; no row raises. *)
Definition update_tokens (user_id : nat) (cost : Z) : M Z :=
  s <- get ;;
  let '(t', ret_rows) :=
    sql_update (fun u => Nat.eqb (u_id u) user_id && Z.geb (u_tokens u) cost)
               (fun u => with_tokens u (u_tokens u - cost)) (users s) in
  put (set_users (fun _ => t') s) ;;;
  match ret_rows with
  | u :: _ => ret (u_tokens u)
  | [] => raise NotEnoughTokensException
  end.

(** [delete_user]: [UPDATE users SET is_active = False
    WHERE id = :id AND is_active = True]; [True] iff [rowcount == 1]. *)
Definition delete_user (user_id : nat) : M bool :=
  s <- get ;;
  let '(t', ret_rows) :=
    sql_update (fun u => Nat.eqb (u_id u) user_id && u_is_active u)
               (fun u => mkUser (u_id u) (u_tokens u) false) (users s) in
  put (set_users (fun _ => t') s) ;;;
  ret (Nat.eqb (length ret_rows) 1).

End UserRepository.

Definition find_user (s : Store) (uid : nat) : option User :=
  find (fun u => Nat.eqb (u_id u) uid) (users s).

(** ** TokenCreditRepository and TokenCreditService.buy_tokens *)
Module TokenCredit.

Definition key_match (user_id : nat) (key : string) (r : TokenCredit) : bool :=
  Nat.eqb (tc_user_id r) user_id && String.eqb (tc_key r) key.

(** [try_insert_pending]: [INSERT ... ON CONFLICT (user_id, key) DO NOTHING];
    [rowcount == 1]. *)
Definition try_insert_pending (user_id : nat) (key : string) : M bool :=
  s <- get ;;
  if existsb (key_match user_id key) (token_credits s) then ret false
  else put (set_token_credits
              (fun t => (t ++ [mkTC user_id key pending None])%list) s) ;;; ret true.

(** [get_by_key_status_open_balance]: [.mappings().first()]. *)
Definition get_by_key_status_open_balance (user_id : nat) (key : string)
  : M (option (RowStatus * option Z)) :=
  s <- get ;;
  ret (option_map (fun r => (tc_status r, tc_open_balance r))
                  (find (key_match user_id key) (token_credits s))).

Definition mark_applied (user_id : nat) (key : string) (open_balance : Z) : M unit :=
  s <- get ;;
  put (set_token_credits
         (fun t => fst (sql_update (key_match user_id key)
                          (fun r => mkTC (tc_user_id r) (tc_key r) applied (Some open_balance)) t)) s).

Definition mark_failed (user_id : nat) (key : string) : M unit :=
  s <- get ;;
  put (set_token_credits
         (fun t => fst (sql_update (key_match user_id key)
                          (fun r => mkTC (tc_user_id r) (tc_key r) failed (tc_open_balance r)) t)) s).

(** [TokenCreditService.buy_tokens]; the result is [BuyTokensResponse.balance]. *)
Definition buy_tokens (user_id : nat) (amount : Z) (key : string) : M Z :=
  inserted <- try_insert_pending user_id key ;;
  if inserted then
    new_balance <- UserRepository.add_tokens user_id amount ;;
    match new_balance with
    | None => mark_failed user_id key ;;; raise BalanceMustBeZeroException
    | Some b => mark_applied user_id key b ;;; ret b
    end
  else
    info <- get_by_key_status_open_balance user_id key ;;
    match info with
    | Some (applied, Some b) => ret b
    | Some (failed, _) => raise BalanceMustBeZeroException
    | _ => raise PurchaseInProgressException
    end.

End TokenCredit.

(** ** Filesystem helpers (app/utils/files.py) *)
Module Files.

Definition exists_path (f : FS) (p : string) : bool :=
  existsb (String.eqb p) (fs_files f).

Definition drop (p : string) (l : list string) : list string :=
  filter (fun x => negb (String.eqb x p)) l.

(** [temp_path_for]. *)
Definition temp_path_for (final_path : string) : string := final_path ++ ".tmp".

(** [os.replace(tmp, final)]: [None] is the [OSError]. *)
Definition os_replace (tmp final : string) (f : FS) : option FS :=
  if exists_path f tmp && negb (existsb (String.eqb tmp) (fs_locked f))
     && negb (existsb (String.eqb final) (fs_locked f))
  then Some (mkFS (final :: drop final (drop tmp (fs_files f))) (fs_locked f))
  else None.

(** [safe_unlink]: empty path is a no-op; missing or protected files are ignored. *)
Definition unlink (p : string) (f : FS) : FS :=
  if String.eqb p "" then f
  else if existsb (String.eqb p) (fs_locked f) then f
  else mkFS (drop p (fs_files f)) (fs_locked f).

Definition safe_unlink (p : string) : M unit :=
  s <- get ;; put (set_fs (unlink p) s).

(** [move_temp_to_final]: [OSError] becomes [ArtifactWriteException]. *)
Definition move_temp_to_final (tmp final : string) : M unit :=
  s <- get ;;
  match os_replace tmp final (fs s) with
  | Some f' => put (set_fs (fun _ => f') s)
  | None => raise ArtifactWriteException
  end.

End Files.

(** ** TrainModelRepository (app/repositories/train_model_repository.py) *)
Module TMRepo.

Definition user_fp (user_id : nat) (fp : string) (r : TrainedModel) : bool :=
  Nat.eqb (tm_user_id r) user_id && String.eqb (tm_fingerprint r) fp.

Definition with_status (r : TrainedModel) (st : RowStatus) (m : option string) : TrainedModel :=
  mkTM (tm_id r) (tm_user_id r) (tm_fingerprint r) st m (tm_model_path r).

(** [try_insert_pending]: [INSERT ... ON CONFLICT (user_id, fingerprint) DO
    NOTHING RETURNING id]. *)
Definition try_insert_pending (user_id : nat) (fp model_path : string) : M (option nat) :=
  s <- get ;;
  if existsb (user_fp user_id fp) (trained_models s) then ret None
  else
    let id := next_id s in
    put (bump_id (set_trained_models
           (fun t => (t ++ [mkTM id user_id fp pending None model_path])%list) s)) ;;;
    ret (Some id).

Definition get_by_user_fingerprint (user_id : nat) (fp : string) : M (option TrainedModel) :=
  s <- get ;; ret (find (user_fp user_id fp) (trained_models s)).

(** [restart_existing_row]: [UPDATE ... SET status='pending', metrics=NULL
    WHERE user_id, fingerprint AND status='failed' RETURNING id]. *)
Definition restart_existing_row (user_id : nat) (fp : string) : M (option nat) :=
  s <- get ;;
  let '(t', rows) :=
    sql_update (fun r => user_fp user_id fp r && RowStatus_eqb (tm_status r) failed)
               (fun r => with_status r pending None) (trained_models s) in
  put (set_trained_models (fun _ => t') s) ;;;
  ret (option_map tm_id (hd_error rows)).

(** [mark_failed]: unconditional [UPDATE ... SET status='failed' WHERE id]. *)
Definition mark_failed (id : nat) : M bool :=
  s <- get ;;
  let '(t', rows) :=
    sql_update (fun r => Nat.eqb (tm_id r) id)
               (fun r => with_status r failed (tm_metrics r)) (trained_models s) in
  put (set_trained_models (fun _ => t') s) ;;;
  ret (negb (Nat.eqb (length rows) 0)).

(** [mark_applied]: [UPDATE ... SET status='applied', metrics WHERE id AND
    status='pending' RETURNING id], then [db.get]. *)
Definition mark_applied (id : nat) (metrics : string) : M (option TrainedModel) :=
  s <- get ;;
  let '(t', rows) :=
    sql_update (fun r => Nat.eqb (tm_id r) id && RowStatus_eqb (tm_status r) pending)
               (fun r => with_status r applied (Some metrics)) (trained_models s) in
  put (set_trained_models (fun _ => t') s) ;;;
  ret (hd_error rows).

End TMRepo.

(** Outcome of [run_training_subprocess] plus [_parse_metrics_or_raise]: on
    exit code 0 the worker has written the pickled estimator to [tmp_out]. *)
Inductive WorkerOutcome :=
| WorkerNonZeroExit                 (** rc != 0 *)
| WorkerMalformedMetrics            (** rc = 0, stdout is not JSON *)
| WorkerOk (metrics : string).      (** rc = 0, stdout parsed *)

(** The dict returned by the services: [{"data", "charged", "balance"}]. *)
Record ActionResult (R : Type) := mkResult { data : R; charged : bool; balance : Z }.
Arguments mkResult {R}.
Arguments data {R}.
Arguments charged {R}.
Arguments balance {R}.

(** ** TrainModelService.train_model (app/services/train_model_service.py)

    From the idempotency gate on: validation and the fingerprint (lines 43-62)
    are pure in the request, so [fp] and [final_path = unique_model_path(user, fp)]
    are inputs.  Asynchronous cancellation is not modelled. *)
Module TrainService.

(** [_fail_and_cleanup]: mark failed (SQLAlchemy errors suppressed), unlink. *)
Definition fail_and_cleanup (row_id : nat) (tmp final : string) : M unit :=
  TMRepo.mark_failed row_id ;;; Files.safe_unlink tmp ;;; Files.safe_unlink final.

(** Lines 71-92: the gate.  [inl row] replays, [inr id] proceeds. *)
Definition gate (user_id : nat) (fp final_path : string)
  : M (ActionResult TrainedModel + nat) :=
  row_id <- TMRepo.try_insert_pending user_id fp final_path ;;
  match row_id with
  | Some id => ret (inr id)
  | None =>
      existing <- TMRepo.get_by_user_fingerprint user_id fp ;;
      match existing with
      | None => raise TrainModelInProgressException
      | Some e =>
          match tm_status e with
          | pending => raise TrainModelInProgressException
          | applied =>
              fresh_balance <- UserRepository.get_tokens_by_id user_id ;;
              ret (inl (mkResult e false fresh_balance))
          | failed =>
              r <- TMRepo.restart_existing_row user_id fp ;;
              match r with
              | None => raise TrainModelInProgressException
              | Some id => ret (inr id)
              end
          end
      end
  end.

(** Lines 103-116: the worker process. *)
Definition run_worker (row_id : nat) (tmp : string) (w : WorkerOutcome) : M string :=
  s <- get ;;
  put (bump_compute s) ;;;
  match w with
  | WorkerNonZeroExit => fail_and_cleanup row_id tmp "" ;;; raise TrainingFailedException
  | WorkerMalformedMetrics =>
      s1 <- get ;;
      put (set_fs (fun f => mkFS (tmp :: Files.drop tmp (fs_files f)) (fs_locked f)) s1) ;;;
      fail_and_cleanup row_id tmp "" ;;; raise TrainingFailedException
  | WorkerOk metrics =>
      s1 <- get ;;
      put (set_fs (fun f => mkFS (tmp :: Files.drop tmp (fs_files f)) (fs_locked f)) s1) ;;;
      ret metrics
  end.

(** Lines 118-131: charge and apply; any exception marks failed and re-raises. *)
Definition charge_and_apply (user_id row_id : nat) (tmp : string) (action : ActionType)
    (metrics : string) : M (Z * TrainedModel) :=
  fun s =>
    match (bal <- UserRepository.update_tokens user_id (cost action) ;;
           a <- TMRepo.mark_applied row_id metrics ;;
           match a with
           | None => raise TrainingFailedException
           | Some r => ret (bal, r)
           end) s with
    | (inl e, s') => (fail_and_cleanup row_id tmp "" ;;; raise e) s'
    | ok => ok
    end.

(** Lines 133-140: publish the artifact. *)
Definition publish (row_id : nat) (tmp final : string) : M unit :=
  fun s =>
    match Files.move_temp_to_final tmp final s with
    | (inl e, s') => (fail_and_cleanup row_id tmp final ;;; raise e) s'
    | ok => ok
    end.

Definition train_model (user_id : nat) (fp final_path : string) (w : WorkerOutcome)
    (action : ActionType) : M (ActionResult TrainedModel) :=
  let tmp_path := Files.temp_path_for final_path in
  g <- gate user_id fp final_path ;;
  match g with
  | inl replay => ret replay
  | inr row_id =>
      metrics <- run_worker row_id tmp_path w ;;
      ba <- charge_and_apply user_id row_id tmp_path action metrics ;;
      publish row_id tmp_path final_path ;;;
      ret (mkResult (snd ba) true (fst ba))
  end.

End TrainService.

(** ** PredictionRepository (app/repositories/prediction_repository.py) *)
Module PRepo.

Definition user_fp (user_id : nat) (fp : string) (r : Prediction) : bool :=
  Nat.eqb (p_user_id r) user_id && String.eqb (p_fingerprint r) fp.

Definition with_status (r : Prediction) (st : RowStatus) (res : string) : Prediction :=
  mkPred (p_id r) (p_user_id r) (p_model_id r) (p_fingerprint r) st res.

(** [get_model_for_user_applied]. *)
Definition get_model_for_user_applied (user_id model_id : nat) : M (option TrainedModel) :=
  s <- get ;;
  ret (find (fun r => Nat.eqb (tm_id r) model_id && Nat.eqb (tm_user_id r) user_id
                      && RowStatus_eqb (tm_status r) applied) (trained_models s)).

(** [try_insert_pending]: pending row with [prediction_result=""]. *)
Definition try_insert_pending (user_id model_id : nat) (fp : string) : M (option nat) :=
  s <- get ;;
  if existsb (user_fp user_id fp) (predictions s) then ret None
  else
    let id := next_id s in
    put (bump_id (set_predictions
           (fun t => (t ++ [mkPred id user_id model_id fp pending ""])%list) s)) ;;;
    ret (Some id).

Definition get_by_user_fingerprint (user_id : nat) (fp : string) : M (option Prediction) :=
  s <- get ;; ret (find (user_fp user_id fp) (predictions s)).

(** [restart_existing_row]: [UPDATE ... SET status='pending' WHERE user_id,
    fingerprint AND status='failed' RETURNING id] (only the status is set). *)
Definition restart_existing_row (user_id : nat) (fp : string) : M (option nat) :=
  s <- get ;;
  let '(t', rows) :=
    sql_update (fun r => user_fp user_id fp r && RowStatus_eqb (p_status r) failed)
               (fun r => with_status r pending (p_prediction_result r)) (predictions s) in
  put (set_predictions (fun _ => t') s) ;;;
  ret (option_map p_id (hd_error rows)).

Definition mark_applied (id : nat) (result : string) : M (option Prediction) :=
  s <- get ;;
  let '(t', rows) :=
    sql_update (fun r => Nat.eqb (p_id r) id && RowStatus_eqb (p_status r) pending)
               (fun r => with_status r applied result) (predictions s) in
  put (set_predictions (fun _ => t') s) ;;;
  ret (hd_error rows).

Definition mark_failed (id : nat) : M unit :=
  s <- get ;;
  put (set_predictions
         (fun t => fst (sql_update (fun r => Nat.eqb (p_id r) id)
                          (fun r => with_status r failed (p_prediction_result r)) t)) s).

End PRepo.

(** Outcome of [_run_prediction] (key check, thread, timeout). *)
Inductive PredictOutcome := PredictOk (result : string) | PredictError.

(** Outcome of [joblib.load] on an existing artifact: the unpickled model, a
    [PermissionError] or other [OSError] reading the file, or any other
    exception (a corrupt or incompatible pickle). *)
Inductive LoadOutcome := LoadOk | LoadOSError | LoadFailure.

(** ** PredictionService.predict (app/services/prediction_service.py)

    [fp] is [compute_prediction_fingerprint(model_id, feature_values)] of the
    request (the loaded row's id is [model_id]). *)
Module PredictService.

(** [_load_model_row_for_user]: owned applied row, then [load_joblib_model]
    of its path.  A missing file is [FileNotFoundError]; on an existing file
    [lo] is what [joblib.load] does.  [FileNotFoundError], [PermissionError]
    and [OSError] become [ArtifactMissingException], any other exception
    [PredictionFailedException]. *)
Definition load_model_row_for_user (user_id model_id : nat) (lo : LoadOutcome)
  : M TrainedModel :=
  row <- PRepo.get_model_for_user_applied user_id model_id ;;
  match row with
  | None => raise ModelNotFoundException
  | Some r =>
      s <- get ;;
      if Files.exists_path (fs s) (tm_model_path r) then
        match lo with
        | LoadOk => ret r
        | LoadOSError => raise ArtifactMissingException
        | LoadFailure => raise PredictionFailedException
        end
      else raise ArtifactMissingException
  end.

Definition gate (user_id model_id : nat) (fp : string)
  : M (ActionResult Prediction + nat) :=
  row_id <- PRepo.try_insert_pending user_id model_id fp ;;
  match row_id with
  | Some id => ret (inr id)
  | None =>
      existing <- PRepo.get_by_user_fingerprint user_id fp ;;
      match existing with
      | None => raise PredictionInProgressException
      | Some e =>
          match p_status e with
          | pending => raise PredictionInProgressException
          | applied =>
              fresh_balance <- UserRepository.get_tokens_by_id user_id ;;
              ret (inl (mkResult e false fresh_balance))
          | failed =>
              r <- PRepo.restart_existing_row user_id fp ;;
              match r with
              | None => raise PredictionInProgressException
              | Some id => ret (inr id)
              end
          end
      end
  end.

Definition run_prediction (row_id : nat) (o : PredictOutcome) : M string :=
  s <- get ;;
  put (bump_compute s) ;;;
  match o with
  | PredictOk r => ret r
  | PredictError => PRepo.mark_failed row_id ;;; raise PredictionFailedException
  end.

(** Lines 92-104: only [PredictionFailedException] (and cancellation) is
    caught; [NotEnoughTokensException] propagates as is. *)
Definition charge_and_apply (user_id row_id : nat) (action : ActionType) (result : string)
  : M (Z * Prediction) :=
  fun s =>
    match (bal <- UserRepository.update_tokens user_id (cost action) ;;
           a <- PRepo.mark_applied row_id result ;;
           match a with
           | None => raise PredictionFailedException
           | Some r => ret (bal, r)
           end) s with
    | (inl PredictionFailedException, s') =>
        (PRepo.mark_failed row_id ;;; raise PredictionFailedException) s'
    | other => other
    end.

Definition predict (user_id model_id : nat) (fp : string) (lo : LoadOutcome)
    (o : PredictOutcome) (action : ActionType) : M (ActionResult Prediction) :=
  _ <- load_model_row_for_user user_id model_id lo ;;
  g <- gate user_id model_id fp ;;
  match g with
  | inl replay => ret replay
  | inr row_id =>
      result <- run_prediction row_id o ;;
      ba <- charge_and_apply user_id row_id action result ;;
      ret (mkResult (snd ba) true (fst ba))
  end.

End PredictService.

(** ** Startup reconciler (app/maintenance/reconciler.py, _helpers.py)

    The reconciler runs on one [AsyncSession] opened by [on_startup]
    ([async with SessionLocal() as db], never committed).  SQLAlchemy 2.0
    session semantics: the first [execute] on a session with no transaction
    autobegins one; [db.begin()] on a session that already has a transaction
    raises [InvalidRequestError]; [async with db.begin()] commits on normal
    exit and rolls back when the body raises; closing the session rolls back
    the open transaction.  File operations hit the disk directly. *)
Module Reconciler.

Record Session := mkSess { committed : Store; tx : option Store; disk : FS }.

Inductive SessError := InvalidRequestError | ArtifactWriteError.

Definition SM (A : Type) := Session -> (SessError + A) * Session.

Definition sret {A} (a : A) : SM A := fun ss => (inr a, ss).
Definition sbind {A B} (m : SM A) (k : A -> SM B) : SM B :=
  fun ss => match m ss with
            | (inl e, ss') => (inl e, ss')
            | (inr a, ss') => k a ss'
            end.
Definition sseq {A} (m : SM unit) (k : SM A) : SM A := sbind m (fun _ => k).

(** [contextlib.suppress(Exception)]. *)
Definition suppress (m : SM unit) : SM unit :=
  fun ss => match m ss with
            | (inl _, ss') => (inr tt, ss')
            | ok => ok
            end.

(** [await db.execute(stmt)], with autobegin. *)
Definition execute {A} (stmt : Store -> A * Store) : SM A :=
  fun ss =>
    let w := match tx ss with Some w => w | None => committed ss end in
    let '(a, w') := stmt w in
    (inr a, mkSess (committed ss) (Some w') (disk ss)).

(** [async with db.begin(): body]. *)
Definition with_begin (body : SM unit) : SM unit :=
  fun ss =>
    match tx ss with
    | Some _ => (inl InvalidRequestError, ss)
    | None =>
        match body (mkSess (committed ss) (Some (committed ss)) (disk ss)) with
        | (inl e, ss') => (inl e, mkSess (committed ss') None (disk ss'))
        | (inr u, ss') =>
            let c := match tx ss' with Some w => w | None => committed ss' end in
            (inr u, mkSess c None (disk ss'))
        end
    end.

Definition on_disk (f : FS -> FS) : SM unit :=
  fun ss => (inr tt, mkSess (committed ss) (tx ss) (f (disk ss))).

Definition get_disk : SM FS := fun ss => (inr (disk ss), ss).

(** A repository call that cannot raise, as a statement. *)
Definition as_stmt {A} (dflt : A) (m : M A) : Store -> A * Store :=
  fun s => match m s with
           | (inr a, s') => (a, s')
           | (inl _, s') => (dflt, s')
           end.

Definition select_status (st : RowStatus) : Store -> list (nat * string) * Store :=
  fun s => (map (fun r => (tm_id r, tm_model_path r))
                (filter (fun r => RowStatus_eqb (tm_status r) st) (trained_models s)), s).

Fixpoint for_each {A} (f : A -> SM unit) (l : list A) : SM unit :=
  match l with
  | [] => sret tt
  | x :: xs => sseq (f x) (for_each f xs)
  end.

(** [mark_failed_safely]. *)
Definition mark_failed_safely (tm_id : nat) : SM unit :=
  suppress (with_begin (sbind (execute (as_stmt false (TMRepo.mark_failed tm_id)))
                              (fun _ => sret tt))).

(** [finish_publish_or_fail], with [_inspect_paths] inlined. *)
Definition finish_publish_or_fail (tm_id : nat) (final_path : string) : SM unit :=
  if String.eqb final_path "" then mark_failed_safely tm_id
  else
    let tmp_path := final_path ++ ".tmp" in
    sbind get_disk (fun d =>
      if Files.exists_path d final_path then sret tt
      else if Files.exists_path d tmp_path then
        match Files.os_replace tmp_path final_path d with
        | Some d' => on_disk (fun _ => d')
        | None =>
            sseq (mark_failed_safely tm_id)
                 (suppress (sseq (on_disk (Files.unlink tmp_path))
                                 (on_disk (Files.unlink final_path))))
        end
      else mark_failed_safely tm_id).

(** [fail_pending_and_clean_tmp]. *)
Definition fail_pending_and_clean_tmp (tm_id : nat) (final_path : string) : SM unit :=
  sseq (mark_failed_safely tm_id)
       (if String.eqb final_path "" then sret tt
        else suppress (on_disk (Files.unlink (final_path ++ ".tmp")))).

Definition reconcile_trained_models_on_startup : SM unit :=
  sbind (execute (select_status applied)) (fun rows =>
  sseq (for_each (fun '(id, p) => finish_publish_or_fail id p) rows)
  (sbind (execute (select_status pending)) (fun pend =>
   for_each (fun '(id, p) => fail_pending_and_clean_tmp id p) pend))).

Definition reconcile_predictions_on_startup : SM unit :=
  execute (fun s =>
    (tt, set_predictions
           (fun t => fst (sql_update (fun r => RowStatus_eqb (p_status r) pending)
                            (fun r => PRepo.with_status r failed (p_prediction_result r)) t)) s)).

(** [on_startup]: both reconcilers on one session, then the session closes.
    The result is the database as committed, with the disk as left. *)
Definition on_startup (s : Store) : Store :=
  let ss0 := mkSess s None (fs s) in
  let '(_, ss) := sseq reconcile_trained_models_on_startup
                       reconcile_predictions_on_startup ss0 in
  set_fs (fun _ => disk ss) (committed ss).

End Reconciler.

(** ** Session rotation (app/services/auth_service.py, auth_repository.py) *)
Module Auth.
Section Rotation.

(** [hash_token]: hex SHA-256 of the UTF-8 token. *)
Variable hash_token : string -> string.

(** [get_refresh_token]: [WHERE refresh_token_hash == token_hash], first row,
    with its user. *)
Definition get_refresh_token (token_hash : string) : M (option (AuthSession * option User)) :=
  s <- get ;;
  ret (option_map (fun r => (r, find_user s (s_user_id r)))
                  (find (fun r => String.eqb (s_refresh_token_hash r) token_hash)
                        (auth_sessions s))).

(** [revoke_by_session]. *)
Definition revoke_by_session (session_id : string) : M unit :=
  s <- get ;;
  put (set_auth_sessions
         (fun t => fst (sql_update (fun r => String.eqb (s_session_id r) session_id)
            (fun r => mkAS (s_session_id r) (s_user_id r) (s_refresh_token_hash r)
                           (s_last_token_hash r) true (s_expires_at r)
                           (s_absolute_expires_at r)) t)) s).

(** [AuthRepository.rotate_refresh_token]. *)
Definition rotate_repo (session_id new_hash last_hash : string) (new_expiry : Z) : M unit :=
  s <- get ;;
  put (set_auth_sessions
         (fun t => fst (sql_update (fun r => String.eqb (s_session_id r) session_id)
            (fun r => mkAS (s_session_id r) (s_user_id r) new_hash (Some last_hash)
                           (s_revoked r) new_expiry (s_absolute_expires_at r)) t)) s).

Definition opt_string_eqb (a : option string) (b : string) : bool :=
  match a with Some x => String.eqb x b | None => false end.

(** [AuthService.rotate_refresh_token] at time [now]; [new_raw] is the
    [generate_id()] the first retry draws (a rotation is an UPDATE, which
    raises no [IntegrityError]).  Returns the new raw refresh token. *)
Definition rotate_refresh_token (refresh_token : string) (now : Z) (new_raw : string)
  : M string :=
  let last_refresh_token := hash_token refresh_token in
  found <- get_refresh_token last_refresh_token ;;
  match found with
  | None => raise InvalidTokenException
  | Some (_, None) => raise InvalidTokenException
  | Some (row, Some u) =>
      if negb (u_is_active u) then raise InvalidTokenException
      else if s_revoked row then raise ReusedTokenException
      else if Z.ltb (s_expires_at row) now then raise ExpiredTokenException
      else if Z.ltb (s_absolute_expires_at row) now then
        revoke_by_session (s_session_id row) ;;; raise ExpiredTokenException
      else if opt_string_eqb (s_last_token_hash row) last_refresh_token then
        revoke_by_session (s_session_id row) ;;; raise ReusedTokenException
      else
        rotate_repo (s_session_id row) (hash_token new_raw) last_refresh_token
                    (now + 3600) ;;;
        ret new_raw
  end.

(** [AuthService.revoke_refresh_token] (logout); [user] is only logged. *)
Definition revoke_refresh_token (user : User) (refresh_token : string) : M unit :=
  let hashed := hash_token refresh_token in
  found <- get_refresh_token hashed ;;
  match found with
  | Some (row, _) => revoke_by_session (s_session_id row)
  | None => ret tt
  end.

(** [AuthRepository.revoke_all_session_by_user]. *)
Definition revoke_all_session_by_user (user_id : nat) : M unit :=
  s <- get ;;
  put (set_auth_sessions
         (fun t => fst (sql_update (fun r => Nat.eqb (s_user_id r) user_id)
            (fun r => mkAS (s_session_id r) (s_user_id r) (s_refresh_token_hash r)
                           (s_last_token_hash r) true (s_expires_at r)
                           (s_absolute_expires_at r)) t)) s).

(** [AuthRepository.insert_new_refresh_token]: [db.add] of a row whose
    [last_token_hash] is NULL and [revoked] takes its default [False]. *)
Definition insert_new_refresh_token (session_id : string) (user_id : nat)
    (refresh_hash : string) (expires_at absolute_expires_at : Z) : M unit :=
  s <- get ;;
  put (set_auth_sessions
         (fun t => (t ++ [mkAS session_id user_id refresh_hash None false
                               expires_at absolute_expires_at])%list) s).

(** [_try_generate_unique_refresh_token_with_retries] with [rotate=False], at
    time [now]; [raw_refresh] and [session_id] are the two [generate_id()]
    draws of the first retry.  [db.add] sends no SQL, so no [IntegrityError]
    is raised inside the loop and the first retry returns. *)
Definition issue_refresh_token (user_id : nat) (now : Z) (raw_refresh session_id : string)
  : M string :=
  insert_new_refresh_token session_id user_id (hash_token raw_refresh)
    (now + 3600) (now + 86400) ;;;
  ret raw_refresh.

End Rotation.
End Auth.

(** ** Fingerprints (app/utils/fingerprint_hashing.py) *)
Module Fingerprint.

(** JSON values as [json.dumps] sees them; a Python dict is the list of its
    items in insertion order. *)
Inductive Json :=
| JNull
| JBool (b : bool)
| JInt (z : Z)
| JFloat (repr : string)              (** [float.__repr__] text *)
| JStr (s : string)
| JArr (l : list Json)
| JObj (items : list (string * Json)).

Fixpoint string_of_uint (u : Decimal.uint) : string :=
  match u with
  | Decimal.Nil => ""
  | Decimal.D0 u => "0" ++ string_of_uint u
  | Decimal.D1 u => "1" ++ string_of_uint u
  | Decimal.D2 u => "2" ++ string_of_uint u
  | Decimal.D3 u => "3" ++ string_of_uint u
  | Decimal.D4 u => "4" ++ string_of_uint u
  | Decimal.D5 u => "5" ++ string_of_uint u
  | Decimal.D6 u => "6" ++ string_of_uint u
  | Decimal.D7 u => "7" ++ string_of_uint u
  | Decimal.D8 u => "8" ++ string_of_uint u
  | Decimal.D9 u => "9" ++ string_of_uint u
  end.

(** [int.__repr__]. *)
Definition string_of_Z (z : Z) : string :=
  match Z.to_int z with
  | Decimal.Pos u => string_of_uint u
  | Decimal.Neg u => "-" ++ string_of_uint u
  end.

(** [sorted(d.items())] for a dict (keys are distinct, so only keys are
    compared): insertion sort on the key, [str] order. *)
Fixpoint insert_item {V} (kv : string * V) (l : list (string * V)) : list (string * V) :=
  match l with
  | [] => [kv]
  | x :: xs => if String.leb (fst kv) (fst x) then kv :: x :: xs else x :: insert_item kv xs
  end.

Definition sort_items {V} (l : list (string * V)) : list (string * V) :=
  fold_right insert_item [] l.

Fixpoint join (sep : string) (l : list string) : string :=
  match l with
  | [] => ""
  | [x] => x
  | x :: xs => x ++ sep ++ join sep xs
  end.

Definition hex_digit (n : N) : string :=
  String (Ascii.ascii_of_N (if (n <? 10)%N then 48 + n else 87 + n)%N) "".

(** [hexdigest()]: two lower-case hex digits per byte. *)
Definition hexdigest (bs : list Byte.byte) : string :=
  fold_right (fun b acc => hex_digit (N.div (Byte.to_N b) 16) ++
                           hex_digit (N.modulo (Byte.to_N b) 16) ++ acc) "" bs.

Section Hashing.

(** [json]'s string encoder ([encode_basestring_ascii]: quotes and escapes). *)
Variable encode_string : string -> string.
(** [hashlib.sha256(...).digest()]. *)
Variable sha256 : list Byte.byte -> list Byte.byte.

(** [stable_json]: [json.dumps(obj, sort_keys=True, separators=(",", ":"))]. *)
Fixpoint stable_json (j : Json) : string :=
  match j with
  | JNull => "null"
  | JBool true => "true"
  | JBool false => "false"
  | JInt z => string_of_Z z
  | JFloat r => r
  | JStr s => encode_string s
  | JArr l => "[" ++ join "," (map stable_json l) ++ "]"
  | JObj items =>
      let rendered := (fix go (l : list (string * Json)) : list (string * string) :=
                         match l with
                         | [] => []
                         | (k, v) :: r => (k, stable_json v) :: go r
                         end) items in
      "{" ++ join "," (map (fun kv => encode_string (fst kv) ++ ":" ++ snd kv)
                           (sort_items rendered)) ++ "}"
  end.

(** [sha256(text.encode("utf-8")).hexdigest()]. *)
Definition sha256_hex (text : string) : string :=
  hexdigest (sha256 (list_byte_of_string text)).

(** [file_sha256]: streaming over chunks hashes the concatenated bytes. *)
Definition file_sha256 (contents : list Byte.byte) : string :=
  hexdigest (sha256 contents).

(** [compute_training_fingerprint]; [model_code_hash()] and
    [lockfile_sha(requirements_file_path)] are the process's strings. *)
Definition compute_training_fingerprint (csv_bytes : list Byte.byte)
    (sorted_features_clean : list string) (label_clean model_type_clean : string)
    (params_norm : Json) (model_code_hash lockfile_sha : string) : string :=
  let pipeline_version := model_code_hash ++ "|lock=" ++ lockfile_sha in
  let parts := JObj [("data_sha256", JStr (file_sha256 csv_bytes));
                     ("features", JArr (map JStr sorted_features_clean));
                     ("label", JStr label_clean);
                     ("model_type", JStr model_type_clean);
                     ("params", params_norm);
                     ("pipeline_version", JStr pipeline_version)] in
  sha256_hex (stable_json parts).

(** [compute_prediction_fingerprint]: [sorted(feature_values.items())] is a
    list of [(key, value)] pairs, dumped as two-element arrays. *)
Definition compute_prediction_fingerprint (model_id : Z)
    (feature_values : list (string * Json)) : string :=
  let canonical :=
    JObj [("model_id", JInt model_id);
          ("features", JArr (map (fun kv => JArr [JStr (fst kv); snd kv])
                                 (sort_items feature_values)))] in
  sha256_hex (stable_json canonical).

End Hashing.

(** Equality of the decoded JSON values, as Python's [==] sees two values
    of the same JSON types: arrays elementwise, dicts as mappings (the
    same distinct keys, in any insertion order, with equal values). *)
Inductive json_equiv : Json -> Json -> Prop :=
| je_null : json_equiv JNull JNull
| je_bool b : json_equiv (JBool b) (JBool b)
| je_int z : json_equiv (JInt z) (JInt z)
| je_float r : json_equiv (JFloat r) (JFloat r)
| je_str s : json_equiv (JStr s) (JStr s)
| je_arr l1 l2 : Forall2 json_equiv l1 l2 -> json_equiv (JArr l1) (JArr l2)
| je_obj i1 i2 i3 :
    NoDup (map fst i1) -> Permutation i1 i2 ->
    Forall2 (fun a b => fst a = fst b /\ json_equiv (snd a) (snd b)) i2 i3 ->
    json_equiv (JObj i1) (JObj i3).

End Fingerprint.

(** ** Status writes on operation rows

    Every repository call that writes the [status] column of
    [trained_models] or [predictions], as one step on the store; the
    reconciler's bulk [UPDATE predictions SET status='failed' WHERE
    status='pending'] is [PWFailPending]. *)
Module StatusWrites.

Inductive TMWrite :=
| TWInsert (user_id : nat) (fp model_path : string)
| TWRestart (user_id : nat) (fp : string)
| TWMarkApplied (id : nat) (metrics : string)
| TWMarkFailed (id : nat).

Definition tm_write (w : TMWrite) : M unit :=
  match w with
  | TWInsert u fp p => TMRepo.try_insert_pending u fp p ;;; ret tt
  | TWRestart u fp => TMRepo.restart_existing_row u fp ;;; ret tt
  | TWMarkApplied id m => TMRepo.mark_applied id m ;;; ret tt
  | TWMarkFailed id => TMRepo.mark_failed id ;;; ret tt
  end.

Inductive PWrite :=
| PWInsert (user_id model_id : nat) (fp : string)
| PWRestart (user_id : nat) (fp : string)
| PWMarkApplied (id : nat) (result : string)
| PWMarkFailed (id : nat)
| PWFailPending.

Definition p_write (w : PWrite) : M unit :=
  match w with
  | PWInsert u m fp => PRepo.try_insert_pending u m fp ;;; ret tt
  | PWRestart u fp => PRepo.restart_existing_row u fp ;;; ret tt
  | PWMarkApplied id r => PRepo.mark_applied id r ;;; ret tt
  | PWMarkFailed id => PRepo.mark_failed id
  | PWFailPending =>
      s <- get ;;
      put (set_predictions
             (fun t => fst (sql_update (fun r => RowStatus_eqb (p_status r) pending)
                              (fun r => PRepo.with_status r failed (p_prediction_result r)) t)) s)
  end.

(** The status change each write may make on an existing row. *)
Inductive tm_transition : TMWrite -> RowStatus -> RowStatus -> Prop :=
| tm_apply id m : tm_transition (TWMarkApplied id m) pending applied
| tm_restart u fp : tm_transition (TWRestart u fp) failed pending
| tm_fail id st : tm_transition (TWMarkFailed id) st failed.

Inductive p_transition : PWrite -> RowStatus -> RowStatus -> Prop :=
| p_apply id r : p_transition (PWMarkApplied id r) pending applied
| p_restart u fp : p_transition (PWRestart u fp) failed pending
| p_fail id st : p_transition (PWMarkFailed id) st failed
| p_fail_pending : p_transition PWFailPending pending failed.

End StatusWrites.

(** ** Input validation ([app/utils/validators.py]) *)

Module Validators.

Inductive ValidationError :=
| MissingDataException
| InvalidFeatureException
| InvalidLabelException
| InvalidParamException
| TypeError.

Definition py_isspace (c : Ascii.ascii) : bool :=
  let n := Ascii.nat_of_ascii c in
  (((9 <=? n) && (n <=? 13)) || ((28 <=? n) && (n <=? 32)) || (n =? 133) || (n =? 160))%nat.

Fixpoint drop_space (l : list Ascii.ascii) : list Ascii.ascii :=
  match l with
  | c :: r => if py_isspace c then drop_space r else l
  | [] => []
  end.

Definition strip (s : string) : string :=
  string_of_list_ascii (rev (drop_space (rev (drop_space (list_ascii_of_string s))))).

Definition fromkeys (xs : list string) : list string :=
  fold_left (fun acc x => if existsb (String.eqb x) acc then acc else (acc ++ [x])%list) xs [].

Definition normalize_features (features : list string) : list string :=
  fromkeys (filter (fun s => negb (String.eqb s "")) (map strip features)).

Fixpoint dict_set {V} (k : string) (v : V) (d : list (string * V)) : list (string * V) :=
  match d with
  | [] => [(k, v)]
  | (k', v') :: r => if String.eqb k' k then (k', v) :: r else (k', v') :: dict_set k v r
  end.

Definition dict_get {V} (k : string) (d : list (string * V)) : option V :=
  option_map snd (find (fun kv => String.eqb (fst kv) k) d).

Fixpoint normalize_items {V} (items out : list (string * V))
  : ValidationError + list (string * V) :=
  match items with
  | [] => inr out
  | (k, v) :: rest =>
      let key := strip k in
      if String.eqb key "" then inl MissingDataException
      else normalize_items rest (dict_set key v out)
  end.

Definition normalize_params {V} (params : option (list (string * V)))
  : ValidationError + list (string * V) :=
  match params with
  | None => inr []
  | Some items => normalize_items items []
  end.

Definition ensure_features_valid (columns features : list string) (label : option string)
  : ValidationError + list string :=
  let cleaned := normalize_features features in
  match cleaned with
  | [] => inl MissingDataException
  | _ =>
      let label_clean := strip (match label with Some l => l | None => "" end) in
      if existsb (String.eqb label_clean) cleaned then inl InvalidFeatureException
      else match filter (fun f => negb (existsb (String.eqb f) columns)) cleaned with
           | [] => inr cleaned
           | _ => inl InvalidFeatureException
           end
  end.

Fixpoint last_value {V} (k : string) (items : list (string * V)) : option V :=
  match items with
  | [] => None
  | (k0, v) :: rest =>
      match last_value k rest with
      | Some w => Some w
      | None => if String.eqb (strip k0) k then Some v else None
      end
  end.

End Validators.
Module ParamRules.
Import Validators.

Inductive PyVal :=
| PyNone
| PyBool (b : bool)
| PyInt (z : Z)
| PyFloat (q : Q)
| PyNaN
| PyInf (pos : bool)
| PyStr (s : string)
| PyContainer.

Definition is_positive (v : PyVal) : bool :=
  match v with
  | PyBool b => b
  | PyInt z => Z.ltb 0 z
  | PyFloat q => negb (Qle_bool q 0)
  | PyInf pos => pos
  | _ => false
  end.

Definition is_non_negative (v : PyVal) : bool :=
  match v with
  | PyBool _ => true
  | PyInt z => Z.leb 0 z
  | PyFloat q => Qle_bool 0 q
  | PyInf pos => pos
  | _ => false
  end.

Definition in_range_0_1 (v : PyVal) : bool :=
  match v with
  | PyBool _ => true
  | PyInt z => Z.leb 0 z && Z.leb z 1
  | PyFloat q => Qle_bool 0 q && Qle_bool q 1
  | _ => false
  end.

Definition is_bool (v : PyVal) : bool :=
  match v with PyBool _ => true | _ => false end.

Definition is_int (v : PyVal) : bool :=
  match v with PyBool _ | PyInt _ => true | _ => false end.

Definition is_positive_int (v : PyVal) : bool :=
  match v with PyBool b => b | PyInt z => Z.ltb 0 z | _ => false end.

Definition one_of (values : list string) (v : PyVal) : bool :=
  match v with PyStr s => existsb (String.eqb s) values | _ => false end.

Definition PARAM_RULES (model_type key : string) : option (PyVal -> bool) :=
  if String.eqb model_type "logistic" then
    if String.eqb key "C" then Some is_positive
    else if String.eqb key "l1_ratio" then Some in_range_0_1
    else if String.eqb key "max_iter" then Some is_positive_int
    else if String.eqb key "solver" then Some (one_of ["lbfgs"; "liblinear"; "saga"; "newton-cg"])
    else if String.eqb key "penalty" then Some (one_of ["l1"; "l2"; "elasticnet"; "none"])
    else if String.eqb key "fit_intercept" then Some is_bool
    else None
  else if String.eqb model_type "linear" then
    if String.eqb key "alpha" then Some is_non_negative
    else if String.eqb key "l1_ratio" then Some in_range_0_1
    else if String.eqb key "fit_intercept" then Some is_bool
    else None
  else if String.eqb model_type "random_forest" then
    if String.eqb key "n_estimators" then Some is_positive_int
    else if String.eqb key "max_depth" then
      Some (fun v => match v with PyNone => true | _ => is_positive_int v end)
    else if String.eqb key "n_jobs" then Some is_int
    else if String.eqb key "random_state" then Some is_int
    else None
  else None.

Definition VALID_SOLVERS_get (penalty : PyVal) : ValidationError + option (list string) :=
  match penalty with
  | PyContainer => inl TypeError
  | PyStr p =>
      inr (if String.eqb p "l2" then Some ["lbfgs"; "newton-cg"; "saga"; "liblinear"]
           else if String.eqb p "l1" then Some ["liblinear"; "saga"]
           else if String.eqb p "elasticnet" then Some ["saga"]
           else if String.eqb p "none" then Some ["lbfgs"; "newton-cg"; "saga"]
           else None)
  | _ => inr None
  end.

Definition get_or (k : string) (default : PyVal) (params : list (string * PyVal)) : PyVal :=
  match dict_get k params with Some v => v | None => default end.

Definition validate_logistic_semantics (params : list (string * PyVal)) : ValidationError + unit :=
  let penalty := get_or "penalty" (PyStr "l2") params in
  let solver := get_or "solver" (PyStr "lbfgs") params in
  match VALID_SOLVERS_get penalty with
  | inl e => inl e
  | inr None => inr tt
  | inr (Some allowed) =>
      match solver with
      | PyContainer => inl TypeError
      | PyStr s => if existsb (String.eqb s) allowed then inr tt else inl InvalidParamException
      | _ => inl InvalidParamException
      end
  end.

Fixpoint check_values (model_type : string) (params : list (string * PyVal)) : ValidationError + unit :=
  match params with
  | [] => inr tt
  | (key, value) :: rest =>
      match PARAM_RULES model_type key with
      | Some rule => if rule value then check_values model_type rest else inl InvalidParamException
      | None => check_values model_type rest
      end
  end.

Definition validate_param_values (model_type : string) (params : list (string * PyVal))
  : ValidationError + unit :=
  match check_values model_type params with
  | inl e => inl e
  | inr _ => if String.eqb model_type "logistic" then validate_logistic_semantics params else inr tt
  end.

End ParamRules.
(** ** Redis cache, versioned views and account deletion *)

Definition Redis := list (string * string).

Definition redis_get (k : string) (r : Redis) : option string :=
  option_map snd (find (fun kv => String.eqb (fst kv) k) r).
Definition redis_set (k v : string) (r : Redis) : Redis :=
  (k, v) :: filter (fun kv => negb (String.eqb (fst kv) k)) r.
Definition redis_delete (k : string) (r : Redis) : Redis :=
  filter (fun kv => negb (String.eqb (fst kv) k)) r.

Inductive SvcError :=
| DbError (e : AppError)
| DeleteUserConfirmationException
| UserHasRemainingTokensException
| UserAlreadyDeletedException.

Definition RM (A : Type) := Store * Redis -> (SvcError + A) * (Store * Redis).

Definition rret {A} (a : A) : RM A := fun w => (inr a, w).
Definition rraise {A} (e : SvcError) : RM A := fun w => (inl e, w).
Definition rbind {A B} (m : RM A) (k : A -> RM B) : RM B :=
  fun w => match m w with
           | (inl e, w') => (inl e, w')
           | (inr a, w') => k a w'
           end.

Notation "x <~ c ;; k" := (rbind c (fun x => k))
  (at level 61, c at next level, right associativity).
Notation "c ;~ k" := (rbind c (fun _ => k))
  (at level 61, right associativity).

Definition db {A} (m : M A) : RM A :=
  fun w => let '(res, s') := m (fst w) in
           (match res with inl e => inl (DbError e) | inr a => inr a end, (s', snd w)).

(** A [SELECT] on the session: reads the store. *)
Definition db_read {A} (f : Store -> A) : RM A := fun w => (inr (f (fst w)), w).

Definition request_r {A} (m : RM A) (w : Store * Redis) : (SvcError + A) * (Store * Redis) :=
  match m w with
  | (inl e, (_, r')) => (inl e, (fst w, r'))
  | ok => ok
  end.

Module CacheRepository.
Section Codec.
Variable dumps : Fingerprint.Json -> string.
Variable loads : string -> option Fingerprint.Json.

Definition set_version (key value : string) : RM unit :=
  fun w => (inr tt, (fst w, redis_set key value (snd w))).
Definition get_version (key : string) : RM (option string) :=
  fun w => (inr (redis_get key (snd w)), w).
Definition set_list (key : string) (value : Fingerprint.Json) : RM unit :=
  fun w => (inr tt, (fst w, redis_set key (dumps value) (snd w))).
Definition get_list (key : string) : RM (option Fingerprint.Json) :=
  fun w => (inr (match redis_get key (snd w) with
                 | None => None
                 | Some raw => match loads raw with Some Fingerprint.JNull => None | j => j end
                 end), w).
Definition delete (key : string) : RM unit :=
  fun w => (inr tt, (fst w, redis_delete key (snd w))).

End Codec.
End CacheRepository.

Module VersionedView.
Section View.
Variable dumps : Fingerprint.Json -> string.
Variable loads : string -> option Fingerprint.Json.
Variable latest_created_at : Store -> option string.
Variable read_rows : Store -> Fingerprint.Json.

Definition opt_eqb (a : option string) (b : string) : bool :=
  match a with Some x => String.eqb x b | None => false end.

Definition versioned_view (list_key ver_key seen_prefix : string)
    (user : User) (action : ActionType) : RM (ActionResult Fingerprint.Json) :=
  let user_seen_key := seen_prefix ++ Fingerprint.string_of_Z (Z.of_nat (u_id user)) in
  db_ver_dt <~ db_read latest_created_at ;;
  match db_ver_dt with
  | None => rret (mkResult (Fingerprint.JArr []) false (u_tokens user))
  | Some db_ver =>
      redis_ver <~ CacheRepository.get_version ver_key ;;
      data <~ (if opt_eqb redis_ver db_ver then
                 cached <~ CacheRepository.get_list loads list_key ;;
                 match cached with
                 | Some c => rret c
                 | None =>
                     rows <~ db_read read_rows ;;
                     CacheRepository.set_list dumps list_key rows ;~
                     rret rows
                 end
               else
                 rows <~ db_read read_rows ;;
                 CacheRepository.set_list dumps list_key rows ;~
                 CacheRepository.set_version ver_key db_ver ;~
                 rret rows) ;;
      user_seen_ver <~ CacheRepository.get_version user_seen_key ;;
      if opt_eqb user_seen_ver db_ver then
        rret (mkResult data false (u_tokens user))
      else
        balance <~ db (UserRepository.update_tokens (u_id user) (cost action)) ;;
        CacheRepository.set_version user_seen_key db_ver ;~
        rret (mkResult data true balance)
  end.

End View.

Definition view_keys : list (string * string * string) :=
  [("models:all:list", "models:all:version", "models:all:last_seen:");
   ("preds:all:list", "preds:all:version", "preds:all:last_seen:");
   ("usage:model_type:list", "usage:model_type:version", "usage:model_type:last_seen:");
   ("usage:type_split:list", "usage:type_split:version", "usage:type_split:last_seen:");
   ("usage:label_distribution:list", "usage:label_distribution:version",
    "usage:label_distribution:last_seen:")].

Definition get_all_users_models dumps loads latest rows :=
  versioned_view dumps loads latest rows "models:all:list" "models:all:version" "models:all:last_seen:".
Definition get_all_users_predictions dumps loads latest rows :=
  versioned_view dumps loads latest rows "preds:all:list" "preds:all:version" "preds:all:last_seen:".

Definition invalidate_global_models_cache (ts : string) : RM unit :=
  CacheRepository.set_version "models:all:version" ts ;~ CacheRepository.delete "models:all:list".
Definition invalidate_global_predictions_cache (ts : string) : RM unit :=
  CacheRepository.set_version "preds:all:version" ts ;~ CacheRepository.delete "preds:all:list".

End VersionedView.

Module UserService.
Section Delete.
Variable verify_password : string -> string -> bool.

Definition delete_user (user : User) (username hashed_password : string)
    (confirm_username confirm_password : string) (confirm_delete_with_balance : bool)
    (ts : string) : RM unit :=
  if negb (String.eqb username confirm_username)
     || negb (verify_password confirm_password hashed_password)
  then rraise DeleteUserConfirmationException
  else if Z.ltb 0 (u_tokens user) && negb confirm_delete_with_balance
  then rraise UserHasRemainingTokensException
  else
    deleted <~ db (UserRepository.delete_user (u_id user)) ;;
    if negb deleted then rraise UserAlreadyDeletedException
    else
      db (Auth.revoke_all_session_by_user (u_id user)) ;~
      VersionedView.invalidate_global_models_cache ts ;~
      VersionedView.invalidate_global_predictions_cache ts.

End Delete.
End UserService.
(** [sp ++ str(user.id)]: the per-user "last seen" key of a view. *)
Definition view_seen_key (sp : string) (user : User) : string :=
  sp ++ Fingerprint.string_of_Z (Z.of_nat (u_id user)).

(** ** Rate limiting ([app/utils/rate_limit.py]) *)

Module RateLimit.

Record RLKey := mkRL { rl_list : list Z; rl_expires_at : Z }.

Inductive RateLimitError := RateLimitException (retry_after : Z) | IndexError.

Definition lrange (now : Z) (k : option RLKey) : list Z :=
  match k with
  | Some x => if Z.ltb now (rl_expires_at x) then rl_list x else []
  | None => []
  end.

Definition ltrim0 (stop : Z) (l : list Z) : list Z :=
  let n := Z.of_nat (length l) in
  let stop' := if Z.ltb stop 0 then n + stop else stop in
  if Z.ltb stop' 0 then [] else firstn (Z.to_nat (stop' + 1)) l.

Definition check_rate_limit (max_requests window now : Z) (k : option RLKey)
  : (RateLimitError + unit) * option RLKey :=
  let timestamps := lrange now k in
  let push := match ltrim0 (max_requests - 1) (now :: timestamps) with
              | [] => None
              | l => Some (mkRL l (now + window))
              end in
  if Z.ltb (Z.of_nat (length timestamps)) max_requests then (inr tt, push)
  else match rev timestamps with
       | [] => (inl IndexError, k)
       | oldest :: _ =>
           let elapsed := now - oldest in
           if Z.ltb elapsed window then (inl (RateLimitException (window - elapsed)), k)
           else (inr tt, push)
       end.

Fixpoint run (max_requests window : Z) (times : list Z) (k : option RLKey) (accepted : list Z)
  : option RLKey * list Z :=
  match times with
  | [] => (k, accepted)
  | now :: rest =>
      match check_rate_limit max_requests window now k with
      | (inr _, k') => run max_requests window rest k' (now :: accepted)
      | (inl _, k') => run max_requests window rest k' accepted
      end
  end.

End RateLimit.
Definition mono (B : list Z) : Prop :=
  forall i j a b, (i <= j)%nat -> nth_error B i = Some b -> nth_error B j = Some a -> a <= b.

Definition spaced (m : nat) (window : Z) (B : list Z) : Prop :=
  forall i a b, nth_error B i = Some b -> nth_error B (i + m) = Some a -> window <= b - a.

Definition rl_inv (m : nat) (window : Z) (k : option RateLimit.RLKey) (B : list Z) : Prop :=
  match B with
  | [] => k = None
  | newest :: _ =>
      exists L, k = Some (RateLimit.mkRL L (newest + window)) /\ L <> [] /\
        L = firstn (length L) B /\ (length L <= m)%nat /\
        ((length L < m)%nat ->
         forall i a, (length L <= i)%nat -> nth_error B i = Some a ->
                     a + window <= nth (length L - 1) B 0)
  end.

(** ** Session issue and refresh sequences *)

Definition revoked_copy (r : AuthSession) : AuthSession :=
  mkAS (s_session_id r) (s_user_id r) (s_refresh_token_hash r)
       (s_last_token_hash r) true (s_expires_at r) (s_absolute_expires_at r).

Fixpoint refresh_sequence hash_token (tok : string) (steps : list (Z * string))
  : Store -> (AppError + string) * Store :=
  fun s => match steps with
  | [] => (inr tok, s)
  | (t, raw) :: rest =>
      match request (Auth.rotate_refresh_token hash_token tok t raw) s with
      | (inr tok', s') => refresh_sequence hash_token tok' rest s'
      | (inl e, s') => (inl e, s')
      end
  end.

Fixpoint within_limits (t0 prev : Z) (steps : list (Z * string)) : Prop :=
  match steps with
  | [] => True
  | (t, _) :: rest => t <= prev + 3600 /\ t <= t0 + 86400 /\ within_limits t0 t rest
  end.

(** ** Example stores and helpers used by the proofs *)

(** A concrete [hash_token] for the examples. *)
Definition demo_hash (t : string) : string := "sha256:" ++ t.

(** A fresh session [S] of user 1 whose current token is [T1]. *)
Definition c1_store : Store :=
  mkStore [mkUser 1 20 true] [] [] []
          [mkAS "S" 1 (demo_hash "T1") None false 3600 86400]
          1 (mkFS [] []) 0.

Definition c3_store : Store :=
  mkStore [mkUser 1 5 true] [] [] [] [] 1 (mkFS [] []) 0.

Definition c10_store : Store :=
  mkStore [mkUser 1 0 false] [] [] [] [] 1 (mkFS [] []) 0.

(** Row 1 applied with neither [a.pkl] nor [a.pkl.tmp] on disk; row 2 pending
    with a leftover [b.pkl.tmp]; prediction 3 pending. *)
Definition c5_store : Store :=
  mkStore [mkUser 1 20 true]
          [mkTM 1 1 "fa" applied (Some "{}") "a.pkl"; mkTM 2 1 "fb" pending None "b.pkl"]
          [mkPred 3 1 1 "pf" pending ""]
          [] [] 4 (mkFS ["b.pkl.tmp"] []) 0.

Definition c8_store : Store :=
  mkStore [mkUser 1 20 true] [mkTM 7 1 "tfp" applied (Some "{}") "m.pkl"]
          [mkPred 4 1 7 "pf" failed "3.5"] [] [] 5 (mkFS ["m.pkl"] []) 0.

(** Session [S] of an active user near the end of its life: current token
    [T1], soft expiry 86300 (as after a rotation at 82700), hard expiry 86400. *)
Definition c7h_store : Store :=
  mkStore [mkUser 1 20 true] [] [] []
          [mkAS "S" 1 (demo_hash "T1") None false 86300 86400]
          1 (mkFS [] []) 0.

(** Session [S] of an active user: soft expiry 10, hard expiry 20. *)
Definition c7_store : Store :=
  mkStore [mkUser 1 20 true] []  [] []
          [mkAS "S" 1 (demo_hash "T1") None false 10 20]
          1 (mkFS [] []) 0.

(** A store where prediction row 8 of user 1 (fingerprint ["pf"], model 7) is
    applied, but model 7's artifact [m.pkl] is not on disk. *)
Definition c2_store : Store :=
  mkStore [mkUser 1 20 true]
          [mkTM 7 1 "tfp" applied (Some "{}") "m.pkl"]
          [mkPred 8 1 7 "pf" applied "3.5"]
          [] [] 9 (mkFS [] []) 0.

Definition c2w_store : Store :=
  set_fs (fun _ => mkFS ["m.pkl"] []) c2_store.

Definition c6_store : Store :=
  mkStore [mkUser 1 50 true] [] [] [] [] 10 (mkFS [] ["n.pkl"]) 0.

(** The training row's status by id. *)
Definition tm_status_of (s : Store) (id : nat) : option RowStatus :=
  option_map tm_status (find (fun r => Nat.eqb (tm_id r) id) (trained_models s)).

Definition key_le {V} (a b : string * V) : Prop := String.leb (fst a) (fst b) = true.

(** The rendered item [(k, stable_json(v))] of a dict, as [json.dumps] pairs it. *)
Definition render (encode_string : string -> string) (kv : string * Fingerprint.Json)
  : string * string := (fst kv, Fingerprint.stable_json encode_string (snd kv)).

(** The all-users models view at data version ["v"], as the witnesses run it. *)
Definition wv_view (user : User) :=
  VersionedView.versioned_view (fun _ => "x") (fun _ => None) (fun _ => Some "v") (fun _ => Fingerprint.JArr [])
    "models:all:list" "models:all:version" "models:all:last_seen:" user METADATA.

(** * Proofs *)

Lemma RowStatus_eqb_eq a b : RowStatus_eqb a b = true <-> a = b.
Proof. destruct a, b; simpl; split; congruence. Qed.

Lemma find_existsb {A} (p : A -> bool) l x : find p l = Some x -> existsb p l = true.
Proof.
  induction l as [|y l IH]; simpl; [discriminate|].
  destruct (p y); auto.
Qed.

Lemma find_none_existsb {A} (p : A -> bool) l : find p l = None -> existsb p l = false.
Proof.
  induction l as [|y l IH]; simpl; [reflexivity|].
  destruct (p y); [discriminate|auto].
Qed.

Lemma set_users_id s : set_users (fun _ => users s) s = s.
Proof. destruct s; reflexivity. Qed.

(** Rows of a table with a unique key: an update keyed on that key touches the
    row [find] returns and nothing else. *)
Section KeyedUpdate.
Context {R : Type} (key : R -> nat).

Lemma keyed_filter (l : list R) k x (q : R -> bool) :
  NoDup (map key l) -> find (fun r => Nat.eqb (key r) k) l = Some x ->
  filter (fun r => Nat.eqb (key r) k && q r) l = if q x then [x] else [].
Proof.
  induction l as [|y l IH]; simpl; [discriminate|].
  intros Hnd Hf. inversion Hnd as [|? ? Hnin Hnd']; subst.
  destruct (Nat.eqb (key y) k) eqn:Hk; simpl.
  - injection Hf as <-. apply Nat.eqb_eq in Hk.
    assert (Hrest : filter (fun r => Nat.eqb (key r) k && q r) l = []).
    { clear IH Hnd Hnd'. induction l as [|z l IHl]; simpl; [reflexivity|].
      destruct (Nat.eqb (key z) k) eqn:Hz.
      - apply Nat.eqb_eq in Hz. exfalso. apply Hnin. simpl. left. congruence.
      - simpl. apply IHl. intro Hin. apply Hnin. simpl. right. exact Hin. }
    destruct (q y); rewrite Hrest; reflexivity.
  - apply IH; assumption.
Qed.

Lemma keyed_map_find (l : list R) k x (q : R -> bool) (f : R -> R) :
  (forall r, key (f r) = key r) ->
  find (fun r => Nat.eqb (key r) k) l = Some x ->
  find (fun r => Nat.eqb (key r) k)
       (map (fun r => if Nat.eqb (key r) k && q r then f r else r) l)
  = Some (if q x then f x else x).
Proof.
  intros Hf. induction l as [|y l IH]; simpl; [discriminate|].
  destruct (Nat.eqb (key y) k) eqn:Hk; simpl.
  - intros Hy. injection Hy as <-. destruct (q y); simpl; rewrite ?Hf, Hk; reflexivity.
  - intros H. rewrite Hk. apply IH, H.
Qed.

Lemma keyed_map_noop (l : list R) k (q : R -> bool) (f : R -> R) :
  filter (fun r => Nat.eqb (key r) k && q r) l = [] ->
  map (fun r => if Nat.eqb (key r) k && q r then f r else r) l = l.
Proof.
  induction l as [|y l IH]; simpl; [reflexivity|].
  destruct (Nat.eqb (key y) k && q y); [discriminate|].
  intros H. f_equal. apply IH, H.
Qed.
End KeyedUpdate.

(** C4 *)
(** Claim C4: for an existing owner and a cost, the debit ([update_tokens])
    succeeds with [balance - cost] exactly when [balance >= cost], leaving a
    non-negative balance; otherwise it raises [NotEnoughTokensException] and
    changes nothing.  The credit ([add_tokens]) returns a new balance only when
    the balance was exactly 0, and returns [None] without any change when the
    balance is non-zero. *)
Theorem token_ledger_guards (s : Store) (uid : nat) (u : User) (c amount : Z)
    (Hkey : NoDup (map u_id (users s))) (Hu : find_user s uid = Some u) (Hc : 0 <= c) :
  (u_tokens u >= c ->
     exists s', UserRepository.update_tokens uid c s = (inr (u_tokens u - c), s')
                /\ find_user s' uid = Some (UserRepository.with_tokens u (u_tokens u - c))
                /\ 0 <= u_tokens u - c)
  /\ (u_tokens u < c ->
        UserRepository.update_tokens uid c s = (inl NotEnoughTokensException, s))
  /\ (forall b s', UserRepository.add_tokens uid amount s = (inr (Some b), s') ->
        u_tokens u = 0)
  /\ (u_tokens u <> 0 -> UserRepository.add_tokens uid amount s = (inr None, s)).
Proof.
  unfold find_user in Hu.
  unfold UserRepository.update_tokens, UserRepository.add_tokens, sql_update, bind, get, put, ret, raise.
  simpl.
  rewrite (keyed_filter u_id (users s) uid u (fun r => Z.geb (u_tokens r) c) Hkey Hu).
  rewrite (keyed_filter u_id (users s) uid u
             (fun r => Z.eqb (u_tokens r) 0 && u_is_active r) Hkey)
    by exact Hu.
  repeat split.
  - intros Hge. assert (Hg : Z.geb (u_tokens u) c = true) by (apply Z.geb_le; lia).
    rewrite Hg. eexists. split; [reflexivity|]. split; [|lia].
    unfold find_user, set_users; simpl.
    pose proof (keyed_map_find u_id (users s) uid u (fun r => Z.geb (u_tokens r) c)
                  (fun r => UserRepository.with_tokens r (u_tokens r - c))
                  (fun r => eq_refl) Hu) as Hm.
    cbv beta in Hm. rewrite Hg in Hm. exact Hm.
  - intros Hlt. assert (Hg : Z.geb (u_tokens u) c = false).
    { destruct (Z.geb (u_tokens u) c) eqn:E; [apply Z.geb_le in E; lia|reflexivity]. }
    rewrite Hg. rewrite keyed_map_noop.
    + rewrite set_users_id. reflexivity.
    + rewrite (keyed_filter u_id (users s) uid u _ Hkey Hu), Hg. reflexivity.
  - intros b s'. destruct (Z.eqb (u_tokens u) 0) eqn:E; [intros; apply Z.eqb_eq, E|].
    simpl. discriminate.
  - intros Hne. assert (E : Z.eqb (u_tokens u) 0 = false) by (apply Z.eqb_neq, Hne).
    rewrite E. simpl. rewrite keyed_map_noop.
    + rewrite set_users_id. reflexivity.
    + rewrite (keyed_filter u_id (users s) uid u _ Hkey Hu), E. reflexivity.
Qed.

(** ** C2: replay of an applied operation *)

Definition model_pred (user_id model_id : nat) (r : TrainedModel) : bool :=
  Nat.eqb (tm_id r) model_id && Nat.eqb (tm_user_id r) user_id
  && RowStatus_eqb (tm_status r) applied.

Lemma train_gate_applied s u user fp final e :
  find (TMRepo.user_fp user fp) (trained_models s) = Some e -> tm_status e = applied ->
  find_user s user = Some u ->
  TrainService.gate user fp final s = (inr (inl (mkResult e false (u_tokens u))), s).
Proof.
  intros Hf Hst Hu. unfold find_user in Hu.
  unfold TrainService.gate, TMRepo.try_insert_pending, TMRepo.get_by_user_fingerprint,
    UserRepository.get_tokens_by_id, bind, get, ret.
  rewrite (find_existsb _ _ _ Hf), Hf, Hst, Hu. reflexivity.
Qed.

Lemma predict_gate_applied s u user model_id fp e :
  find (PRepo.user_fp user fp) (predictions s) = Some e -> p_status e = applied ->
  find_user s user = Some u ->
  PredictService.gate user model_id fp s = (inr (inl (mkResult e false (u_tokens u))), s).
Proof.
  intros Hf Hst Hu. unfold find_user in Hu.
  unfold PredictService.gate, PRepo.try_insert_pending, PRepo.get_by_user_fingerprint,
    UserRepository.get_tokens_by_id, bind, get, ret.
  rewrite (find_existsb _ _ _ Hf), Hf, Hst, Hu. reflexivity.
Qed.

Lemma load_model_eq s user model_id lo :
  PredictService.load_model_row_for_user user model_id lo s
  = match find (model_pred user model_id) (trained_models s) with
    | None => (inl ModelNotFoundException, s)
    | Some m =>
        if Files.exists_path (fs s) (tm_model_path m) then
          match lo with
          | LoadOk => (inr m, s)
          | LoadOSError => (inl ArtifactMissingException, s)
          | LoadFailure => (inl PredictionFailedException, s)
          end
        else (inl ArtifactMissingException, s)
    end.
Proof.
  unfold PredictService.load_model_row_for_user, PRepo.get_model_for_user_applied,
    bind, get, ret, raise; unfold model_pred.
  destruct (find _ (trained_models s)) as [m|]; [|reflexivity].
  destruct (Files.exists_path (fs s) (tm_model_path m)); [|reflexivity].
  destruct lo; reflexivity.
Qed.

(** C2 *)
(** Claim C2 (amended): a training submission whose (owner, fingerprint) row
    exists with status applied returns that row with [charged = false] and the
    owner's current balance, and leaves the whole store unchanged (no worker
    run, no debit, row untouched).  A prediction submission whose row exists
    applied first loads the referenced model: it does the same when the model
    is still the owner's applied model and its artifact exists and loads
    ([LoadOk]); otherwise it raises [ModelNotFoundException],
    [ArtifactMissingException] (file missing, or an OS or permission error
    reading it) or [PredictionFailedException] (any other load error), again
    leaving the store unchanged. *)
Theorem applied_submission_replays (s : Store) (u : User) (user : nat) :
  (forall fp final w action e,
     find (TMRepo.user_fp user fp) (trained_models s) = Some e -> tm_status e = applied ->
     find_user s user = Some u ->
     TrainService.train_model user fp final w action s = (inr (mkResult e false (u_tokens u)), s))
  /\ (forall model_id fp lo o action e,
     find (PRepo.user_fp user fp) (predictions s) = Some e -> p_status e = applied ->
     find_user s user = Some u ->
     PredictService.predict user model_id fp lo o action s
     = match find (model_pred user model_id) (trained_models s) with
       | None => (inl ModelNotFoundException, s)
       | Some m =>
           if Files.exists_path (fs s) (tm_model_path m) then
             match lo with
             | LoadOk => (inr (mkResult e false (u_tokens u)), s)
             | LoadOSError => (inl ArtifactMissingException, s)
             | LoadFailure => (inl PredictionFailedException, s)
             end
           else (inl ArtifactMissingException, s)
       end).
Proof.
  split.
  - intros fp final w action e Hf Hst Hu.
    unfold TrainService.train_model. unfold bind at 1.
    rewrite (train_gate_applied s u user fp final e Hf Hst Hu). reflexivity.
  - intros model_id fp lo o action e Hf Hst Hu.
    unfold PredictService.predict. unfold bind at 1.
    rewrite (load_model_eq s user model_id lo).
    destruct (find (model_pred user model_id) (trained_models s)) as [m|]; [|reflexivity].
    destruct (Files.exists_path (fs s) (tm_model_path m)); [|reflexivity].
    destruct lo; try reflexivity.
    unfold bind at 1. rewrite (predict_gate_applied s u user model_id fp e Hf Hst Hu).
    reflexivity.
Qed.


(** Claim C2 fails as stated: the applied prediction row exists, yet the
    submission raises [ArtifactMissingException] when the model's artifact is
    gone, and [PredictionFailedException] when it is on disk but [joblib.load]
    fails on it, instead of returning the stored row. *)
Lemma applied_prediction_not_replayed :
  (exists e, find (PRepo.user_fp 1 "pf") (predictions c2_store) = Some e
             /\ p_status e = applied)
  /\ PredictService.predict 1 7 "pf" LoadOk (PredictOk "4.0") PREDICTION c2_store
     = (inl ArtifactMissingException, c2_store)
  /\ PredictService.predict 1 7 "pf" LoadFailure (PredictOk "4.0") PREDICTION c2w_store
     = (inl PredictionFailedException, c2w_store).
Proof. split; [eexists; split; reflexivity | split; reflexivity]. Qed.

(** ** C1: replay of a superseded refresh token *)



(** C1 *)
(** Claim C1 fails on the code: rotating [S] at time 100 with [T1] yields
    [T2] and stores [hash T1] as the previous hash; presenting [T1] again is
    then rejected with [InvalidTokenException] (the lookup is by the current
    hash only, so the row is not found) and session [S] stays unrevoked. *)
Theorem superseded_token_replay_not_detected :
  let r1 := request (Auth.rotate_refresh_token demo_hash "T1" 100 "T2") c1_store in
  let s1 := snd r1 in
  fst r1 = inr "T2"
  /\ map s_last_token_hash (auth_sessions s1) = [Some (demo_hash "T1")]
  /\ request (Auth.rotate_refresh_token demo_hash "T1" 200 "T3") s1
     = (inl InvalidTokenException, s1)
  /\ map s_revoked (auth_sessions s1) = [false].
Proof. vm_compute. repeat split; reflexivity. Qed.

(** ** C3 and C10: idempotent purchase *)


(** C3 *)
(** Claim C3 fails on the code: a purchase with key [K] on a balance of 5
    raises [BalanceMustBeZeroException]; the request rolls back, so no failed
    ledger row for [K] survives.  After a prediction debit brings the balance
    to 0, a later purchase with the same [K] credits 10 instead of replaying
    the policy violation. *)
Theorem failed_purchase_key_not_replayed :
  request (TokenCredit.buy_tokens 1 10 "K") c3_store
    = (inl BalanceMustBeZeroException, c3_store)
  /\ token_credits c3_store = []
  /\ (let s2 := snd (request (UserRepository.update_tokens 1 (cost PREDICTION)) c3_store) in
      map u_tokens (users s2) = [0]
      /\ fst (request (TokenCredit.buy_tokens 1 10 "K") s2) = inr 10
      /\ map u_tokens (users (snd (request (TokenCredit.buy_tokens 1 10 "K") s2))) = [10]).
Proof. vm_compute. repeat split; reflexivity. Qed.


(** C10 *)
(** Claim C10 at an inactive owner with balance 0: inside the handler the
    credit matches no row, the ledger row is written as failed and
    [BalanceMustBeZeroException] is raised; the request then rolls back, so the
    committed store has no ledger row for the key (and no credit). *)
Theorem inactive_owner_purchase :
  (exists s', TokenCredit.buy_tokens 1 10 "K" c10_store = (inl BalanceMustBeZeroException, s')
              /\ token_credits s' = [mkTC 1 "K" failed None]
              /\ users s' = users c10_store)
  /\ request (TokenCredit.buy_tokens 1 10 "K") c10_store
     = (inl BalanceMustBeZeroException, c10_store)
  /\ token_credits c10_store = [].
Proof. split; [eexists; vm_compute; repeat split; reflexivity|]. vm_compute. split; reflexivity. Qed.

(** ** C5: startup reconciliation *)


(** C5 *)
(** Claim C5 fails on the code: every [mark_failed_safely] runs
    [db.begin()] on a session that the reconciler's first [SELECT] already
    put in a transaction, so it raises and is suppressed; the predictions
    update is never committed.  After [on_startup] the applied row without
    artifacts is still applied and both pending rows are still pending (the
    leftover temp file is deleted). *)
Theorem reconciler_leaves_rows_unresolved :
  let s' := Reconciler.on_startup c5_store in
  map tm_status (trained_models s') = [applied; pending]
  /\ map p_status (predictions s') = [pending]
  /\ fs_files (fs s') = [].
Proof. vm_compute. repeat split; reflexivity. Qed.

(** ** C8: restarting a failed row *)


(** C8 *)
(** Claim C8 fails for predictions: restarting the failed prediction row 4
    returns its id and flips it to pending, but its stale
    [prediction_result] ["3.5"] is kept (the training restart sets
    [metrics = None]). *)
Theorem prediction_restart_keeps_result :
  PRepo.restart_existing_row 1 "pf" c8_store
  = (inr (Some 4%nat), set_predictions (fun _ => [mkPred 4 1 7 "pf" pending "3.5"]) c8_store).
Proof. reflexivity. Qed.

(** ** C7: soft and hard expiry *)

(** C7 *)
(** Claim C7 fails on the code in two ways.  Session [S] of [c7h_store] (soft
    expiry 86300, hard expiry 86400) is rotated with [T1] at time 86000, which
    moves its soft expiry to 89600, past its hard expiry.  At time 87000 the
    hard expiry is past and the soft one is not: the handler revokes [S] and
    raises [ExpiredTokenException], but the request rolls the revoke back
    ([get_db]'s [session.begin()]), so [S] stays unrevoked.  At time 90000
    both expiries are past: the soft-expiry branch, checked first, raises
    [ExpiredTokenException] without revoking [S] even inside the handler. *)
Theorem hard_expiry_revoke_not_kept :
  exists s1,
    request (Auth.rotate_refresh_token demo_hash "T1" 86000 "T2") c7h_store = (inr "T2", s1)
    /\ map s_expires_at (auth_sessions s1) = [89600]
    /\ map s_absolute_expires_at (auth_sessions s1) = [86400]
    /\ map s_revoked (auth_sessions s1) = [false]
    /\ fst (Auth.rotate_refresh_token demo_hash "T2" 87000 "T3" s1) = inl ExpiredTokenException
    /\ map s_revoked (auth_sessions (snd (Auth.rotate_refresh_token demo_hash "T2" 87000 "T3" s1)))
       = [true]
    /\ request (Auth.rotate_refresh_token demo_hash "T2" 87000 "T3") s1
       = (inl ExpiredTokenException, s1)
    /\ Auth.rotate_refresh_token demo_hash "T2" 90000 "T3" s1 = (inl ExpiredTokenException, s1).
Proof.
  eexists. split; [reflexivity|].
  vm_compute. repeat split; reflexivity.
Qed.

(** ** C6: status transitions *)

Lemma nth_error_sql_update {R} (p : R -> bool) (f : R -> R) (t : list R) i r :
  nth_error t i = Some r ->
  nth_error (fst (sql_update p f t)) i = Some (if p r then f r else r).
Proof. intro H. unfold sql_update; cbn [fst]. rewrite nth_error_map, H. reflexivity. Qed.

Lemma nth_error_appended {R} (t : list R) (x r : R) i :
  nth_error (t ++ [x])%list i = Some r ->
  (nth_error t i = Some r) \/ (length t <= i /\ r = x)%nat.
Proof.
  intro H. destruct (Nat.lt_ge_cases i (length t)) as [Hl | Hl].
  - left. rewrite nth_error_app1 in H by exact Hl. exact H.
  - right. rewrite nth_error_app2 in H by exact Hl.
    destruct (i - length t)%nat as [|k]; simpl in H.
    + split; [exact Hl | congruence].
    + destruct k; discriminate.
Qed.

Lemma nth_error_appended_old {R} (t : list R) (x r : R) i :
  nth_error t i = Some r -> nth_error (t ++ [x])%list i = Some r.
Proof.
  intro H. rewrite nth_error_app1; [exact H|]. apply nth_error_Some. congruence.
Qed.

Ltac unfold_write :=
  cbv [StatusWrites.tm_write StatusWrites.p_write TMRepo.try_insert_pending
       TMRepo.restart_existing_row TMRepo.mark_applied TMRepo.mark_failed
       PRepo.try_insert_pending PRepo.restart_existing_row PRepo.mark_applied
       PRepo.mark_failed bind get put ret set_trained_models set_predictions bump_id];
  cbn beta iota.

Lemma tm_write_rows w s :
  (forall i r, nth_error (trained_models s) i = Some r ->
     exists r', nth_error (trained_models (snd (StatusWrites.tm_write w s))) i = Some r'
       /\ (tm_status r' = tm_status r \/ StatusWrites.tm_transition w (tm_status r) (tm_status r')))
  /\ (forall i r', nth_error (trained_models (snd (StatusWrites.tm_write w s))) i = Some r' ->
        (length (trained_models s) <= i)%nat -> tm_status r' = pending).
Proof.
  destruct w as [u fp p | u fp | id m | id]; unfold_write.
  - destruct (existsb (TMRepo.user_fp u fp) (trained_models s)); cbn.
    + split; [intros i r H; exists r; auto|].
      intros i r' H Hl. apply nth_error_None in Hl. congruence.
    + split.
      * intros i r H. exists r. split; [apply nth_error_appended_old; exact H | auto].
      * intros i r' H Hl. apply nth_error_appended in H as [H | [_ ->]]; [|reflexivity].
        apply nth_error_None in Hl. congruence.
  - split.
    + intros i r H. eexists. split; [cbn; apply nth_error_sql_update; exact H|].
      destruct (TMRepo.user_fp u fp r && RowStatus_eqb (tm_status r) failed) eqn:E;
        [right | left; reflexivity].
      apply andb_prop in E as [_ E]. apply RowStatus_eqb_eq in E. rewrite E.
      constructor.
    + intros i r' H Hl. cbn in H. unfold sql_update in H; cbn [fst] in H.
      apply nth_error_None in Hl. rewrite nth_error_map, Hl in H. discriminate.
  - split.
    + intros i r H. eexists. split; [cbn; apply nth_error_sql_update; exact H|].
      destruct (Nat.eqb (tm_id r) id && RowStatus_eqb (tm_status r) pending) eqn:E;
        [right | left; reflexivity].
      apply andb_prop in E as [_ E]. apply RowStatus_eqb_eq in E. rewrite E.
      constructor.
    + intros i r' H Hl. cbn in H. unfold sql_update in H; cbn [fst] in H.
      apply nth_error_None in Hl. rewrite nth_error_map, Hl in H. discriminate.
  - split.
    + intros i r H. eexists. split; [cbn; apply nth_error_sql_update; exact H|].
      destruct (Nat.eqb (tm_id r) id); [right; constructor | left; reflexivity].
    + intros i r' H Hl. cbn in H. unfold sql_update in H; cbn [fst] in H.
      apply nth_error_None in Hl. rewrite nth_error_map, Hl in H. discriminate.
Qed.

Lemma p_write_rows w s :
  (forall i r, nth_error (predictions s) i = Some r ->
     exists r', nth_error (predictions (snd (StatusWrites.p_write w s))) i = Some r'
       /\ (p_status r' = p_status r \/ StatusWrites.p_transition w (p_status r) (p_status r')))
  /\ (forall i r', nth_error (predictions (snd (StatusWrites.p_write w s))) i = Some r' ->
        (length (predictions s) <= i)%nat -> p_status r' = pending).
Proof.
  destruct w as [u mid fp | u fp | id res | id |]; unfold_write.
  - destruct (existsb (PRepo.user_fp u fp) (predictions s)); cbn.
    + split; [intros i r H; exists r; auto|].
      intros i r' H Hl. apply nth_error_None in Hl. congruence.
    + split.
      * intros i r H. exists r. split; [apply nth_error_appended_old; exact H | auto].
      * intros i r' H Hl. apply nth_error_appended in H as [H | [_ ->]]; [|reflexivity].
        apply nth_error_None in Hl. congruence.
  - split.
    + intros i r H. eexists. split; [cbn; apply nth_error_sql_update; exact H|].
      destruct (PRepo.user_fp u fp r && RowStatus_eqb (p_status r) failed) eqn:E;
        [right | left; reflexivity].
      apply andb_prop in E as [_ E]. apply RowStatus_eqb_eq in E. rewrite E.
      constructor.
    + intros i r' H Hl. cbn in H. unfold sql_update in H; cbn [fst] in H.
      apply nth_error_None in Hl. rewrite nth_error_map, Hl in H. discriminate.
  - split.
    + intros i r H. eexists. split; [cbn; apply nth_error_sql_update; exact H|].
      destruct (Nat.eqb (p_id r) id && RowStatus_eqb (p_status r) pending) eqn:E;
        [right | left; reflexivity].
      apply andb_prop in E as [_ E]. apply RowStatus_eqb_eq in E. rewrite E.
      constructor.
    + intros i r' H Hl. cbn in H. unfold sql_update in H; cbn [fst] in H.
      apply nth_error_None in Hl. rewrite nth_error_map, Hl in H. discriminate.
  - split.
    + intros i r H. eexists. split; [cbn; apply nth_error_sql_update; exact H|].
      destruct (Nat.eqb (p_id r) id); [right; constructor | left; reflexivity].
    + intros i r' H Hl. cbn in H. unfold sql_update in H; cbn [fst] in H.
      apply nth_error_None in Hl. rewrite nth_error_map, Hl in H. discriminate.
  - split.
    + intros i r H. eexists. split; [cbn; apply nth_error_sql_update; exact H|].
      destruct (RowStatus_eqb (p_status r) pending) eqn:E; [right | left; reflexivity].
      apply RowStatus_eqb_eq in E. rewrite E. constructor.
    + intros i r' H Hl. cbn in H. unfold sql_update in H; cbn [fst] in H.
      apply nth_error_None in Hl. rewrite nth_error_map, Hl in H. discriminate.
Qed.



(** C6 *)
(** A training run whose artifact cannot be published ([n.pkl] cannot be
    replaced): after [charge_and_apply] row 10 is applied, and publishing
    then marks it failed, so the handler moves an applied row to failed. *)
Lemma applied_row_marked_failed :
  let s_g := snd (TrainService.gate 1 "fp" "n.pkl" c6_store) in
  let s_w := snd (TrainService.run_worker 10 "n.pkl.tmp" (WorkerOk "{}") s_g) in
  let s_a := snd (TrainService.charge_and_apply 1 10 "n.pkl.tmp" TRAINING "{}" s_w) in
  fst (TrainService.gate 1 "fp" "n.pkl" c6_store) = inr (inr 10%nat)
  /\ tm_status_of s_a 10 = Some applied
  /\ TrainService.publish 10 "n.pkl.tmp" "n.pkl" s_a
     = (inl ArtifactWriteException,
        snd (TrainService.publish 10 "n.pkl.tmp" "n.pkl" s_a))
  /\ tm_status_of (snd (TrainService.publish 10 "n.pkl.tmp" "n.pkl" s_a)) 10 = Some failed
  /\ TrainService.train_model 1 "fp" "n.pkl" (WorkerOk "{}") TRAINING c6_store
     = (inl ArtifactWriteException, snd (TrainService.publish 10 "n.pkl.tmp" "n.pkl" s_a)).
Proof. vm_compute. repeat split; reflexivity. Qed.

(** Claim C6 (amended): every status write on an operation row either
    leaves an existing row's status as it was or makes one of the moves
    pending -> applied ([mark_applied]), failed -> pending ([restart]) or
    any status -> failed ([mark_failed], and pending -> failed by the
    reconciler's bulk update of predictions); a row the write adds is
    pending.  Hence applied is entered only from pending, and left only by
    [mark_failed], which moves it to failed. *)
Theorem status_write_transitions :
  (forall w s i r, nth_error (trained_models s) i = Some r ->
     exists r', nth_error (trained_models (snd (StatusWrites.tm_write w s))) i = Some r'
       /\ (tm_status r' = tm_status r
           \/ StatusWrites.tm_transition w (tm_status r) (tm_status r')))
  /\ (forall w s i r', nth_error (trained_models (snd (StatusWrites.tm_write w s))) i = Some r' ->
        (length (trained_models s) <= i)%nat -> tm_status r' = pending)
  /\ (forall w s i r, nth_error (predictions s) i = Some r ->
     exists r', nth_error (predictions (snd (StatusWrites.p_write w s))) i = Some r'
       /\ (p_status r' = p_status r
           \/ StatusWrites.p_transition w (p_status r) (p_status r')))
  /\ (forall w s i r', nth_error (predictions (snd (StatusWrites.p_write w s))) i = Some r' ->
        (length (predictions s) <= i)%nat -> p_status r' = pending)
  /\ (forall w st st', StatusWrites.tm_transition w st st' ->
        (st' = applied -> st = pending)
        /\ (st = applied -> st' = failed /\ exists id, w = StatusWrites.TWMarkFailed id))
  /\ (forall w st st', StatusWrites.p_transition w st st' ->
        (st' = applied -> st = pending)
        /\ (st = applied -> st' = failed /\ exists id, w = StatusWrites.PWMarkFailed id)).
Proof.
  split; [intros w s; exact (proj1 (tm_write_rows w s))|].
  split; [intros w s; exact (proj2 (tm_write_rows w s))|].
  split; [intros w s; exact (proj1 (p_write_rows w s))|].
  split; [intros w s; exact (proj2 (p_write_rows w s))|].
  split.
  - intros w st st' H. destruct H; split; intro E; try discriminate; eauto.
  - intros w st st' H. destruct H; split; intro E; try discriminate; eauto.
Qed.

Lemma status_write_transitions_witness :
  nth_error (trained_models c2_store) 0 = Some (mkTM 7 1 "tfp" applied (Some "{}") "m.pkl")
  /\ exists r', nth_error (trained_models (snd (StatusWrites.tm_write
                  (StatusWrites.TWMarkFailed 7) c2_store))) 0 = Some r'
       /\ (tm_status r' = applied
           \/ StatusWrites.tm_transition (StatusWrites.TWMarkFailed 7) applied (tm_status r')).
Proof.
  split; [reflexivity|].
  exact (proj1 status_write_transitions (StatusWrites.TWMarkFailed 7) c2_store 0%nat
           (mkTM 7 1 "tfp" applied (Some "{}") "m.pkl") eq_refl).
Defined.

(** ** C9: fingerprints *)

(** [str] order is a total preorder (indeed a total order). *)
Lemma string_leb_trans a b c :
  String.leb a b = true -> String.leb b c = true -> String.leb a c = true.
Proof.
  unfold String.leb.
  revert b c; induction a as [|x a IH]; intros [|y b] [|z c]; cbn; auto; try congruence.
  unfold Ascii.compare.
  destruct (N.compare_spec (Ascii.N_of_ascii x) (Ascii.N_of_ascii y)) as [Exy|Lxy|Gxy];
  destruct (N.compare_spec (Ascii.N_of_ascii y) (Ascii.N_of_ascii z)) as [Eyz|Lyz|Gyz];
  destruct (N.compare_spec (Ascii.N_of_ascii x) (Ascii.N_of_ascii z)) as [Exz|Lxz|Gxz];
  try lia; try congruence; intros; auto.
  apply (IH b c); assumption.
Qed.

Lemma in_keys_unique {V} (l : list (string * V)) x y :
  NoDup (map fst l) -> In x l -> In y l -> fst x = fst y -> x = y.
Proof.
  induction l as [|a l IH]; intros Hnd Hx Hy Hk; [destruct Hx|].
  inversion Hnd as [|? ? Hnin Hnd']; subst.
  destruct Hx as [<-|Hx], Hy as [<-|Hy]; auto.
  - exfalso. apply Hnin. rewrite Hk. apply in_map. exact Hy.
  - exfalso. apply Hnin. rewrite <- Hk. apply in_map. exact Hx.
Qed.


Lemma insert_item_perm {V} (kv : string * V) l :
  Permutation (Fingerprint.insert_item kv l) (kv :: l).
Proof.
  induction l as [|x l IH]; cbn; [auto|].
  destruct (String.leb (fst kv) (fst x)); [auto|].
  eapply perm_trans; [apply perm_skip; exact IH | apply perm_swap].
Qed.

Lemma sort_items_perm {V} (l : list (string * V)) :
  Permutation (Fingerprint.sort_items l) l.
Proof.
  induction l as [|x l IH]; cbn; [auto|].
  eapply perm_trans; [apply insert_item_perm | apply perm_skip; exact IH].
Qed.

Lemma insert_item_sorted {V} (kv : string * V) l :
  StronglySorted key_le l -> StronglySorted key_le (Fingerprint.insert_item kv l).
Proof.
  induction l as [|x l IH]; intro Hs; cbn.
  - repeat constructor.
  - inversion Hs as [|? ? Hs' Hall]; subst.
    destruct (String.leb (fst kv) (fst x)) eqn:E.
    + constructor; [exact Hs|]. constructor; [exact E|].
      eapply Forall_impl; [|exact Hall]. intros y Hy. eapply string_leb_trans; eauto.
    + constructor; [apply IH; exact Hs'|].
      eapply Permutation_Forall; [apply Permutation_sym, insert_item_perm|].
      constructor; [|exact Hall].
      unfold key_le. destruct (String.leb_total (fst kv) (fst x)); congruence.
Qed.

Lemma sort_items_sorted {V} (l : list (string * V)) :
  StronglySorted key_le (Fingerprint.sort_items l).
Proof.
  induction l as [|x l IH]; cbn; [constructor|]. apply insert_item_sorted, IH.
Qed.

(** Two sorted lists with the same items and distinct keys are equal. *)
Lemma sorted_perm_unique {V} (l1 l2 : list (string * V)) :
  NoDup (map fst l1) -> StronglySorted key_le l1 -> StronglySorted key_le l2 ->
  Permutation l1 l2 -> l1 = l2.
Proof.
  revert l2; induction l1 as [|a l1 IH]; intros l2 Hnd H1 H2 Hp.
  - symmetry. apply Permutation_nil, Hp.
  - destruct l2 as [|b l2]; [apply Permutation_sym, Permutation_nil in Hp; discriminate|].
    inversion H1 as [|? ? H1' A1]; inversion H2 as [|? ? H2' A2]; subst.
    assert (Hab : a = b).
    { assert (Ha : In a (b :: l2)) by (eapply Permutation_in; [exact Hp | left; reflexivity]).
      assert (Hb : In b (a :: l1)) by (eapply Permutation_in;
                                        [apply Permutation_sym, Hp | left; reflexivity]).
      destruct Ha as [-> | Ha]; [reflexivity|].
      destruct Hb as [<- | Hb]; [reflexivity|].
      apply (in_keys_unique (a :: l1)); [exact Hnd | left; reflexivity | right; exact Hb|].
      apply String.leb_antisym.
      - rewrite Forall_forall in A1. apply (A1 b Hb).
      - rewrite Forall_forall in A2. apply (A2 a Ha). }
    subst b. f_equal. apply IH; auto.
    + inversion Hnd; assumption.
    + eapply Permutation_cons_inv; exact Hp.
Qed.

Lemma sort_items_perm_eq {V} (l1 l2 : list (string * V)) :
  NoDup (map fst l1) -> Permutation l1 l2 ->
  Fingerprint.sort_items l1 = Fingerprint.sort_items l2.
Proof.
  intros Hnd Hp. apply sorted_perm_unique; try apply sort_items_sorted.
  - eapply Permutation_NoDup; [apply Permutation_map, Permutation_sym, sort_items_perm|].
    exact Hnd.
  - eapply perm_trans; [apply sort_items_perm|].
    eapply perm_trans; [exact Hp|]. apply Permutation_sym, sort_items_perm.
Qed.

Section StableJson.

Variable encode_string : string -> string.

Lemma stable_json_JObj items :
  Fingerprint.stable_json encode_string (Fingerprint.JObj items)
  = "{" ++ Fingerprint.join "," (map (fun kv => encode_string (fst kv) ++ ":" ++ snd kv)
                                     (Fingerprint.sort_items (map (render encode_string) items))) ++ "}".
Proof.
  cbn [Fingerprint.stable_json].
  match goal with |- context [Fingerprint.sort_items ?x] => replace x with (map (render encode_string) items) end;
    [reflexivity|].
  induction items as [|[k v] items IH]; cbn; [reflexivity|]. rewrite IH. reflexivity.
Qed.

Lemma stable_json_JArr l :
  Fingerprint.stable_json encode_string (Fingerprint.JArr l) = "[" ++ Fingerprint.join "," (map (Fingerprint.stable_json encode_string) l) ++ "]".
Proof. reflexivity. Qed.

Lemma render_sorted_eq i1 i2 i3 :
  NoDup (map fst i1) -> Permutation i1 i2 ->
  Forall2 (fun a b => fst a = fst b /\ Fingerprint.stable_json encode_string (snd a) = Fingerprint.stable_json encode_string (snd b)) i2 i3 ->
  Fingerprint.sort_items (map (render encode_string) i1) = Fingerprint.sort_items (map (render encode_string) i3).
Proof.
  intros Hnd Hp Hf.
  assert (E : map (render encode_string) i2 = map (render encode_string) i3).
  { clear Hp Hnd. induction Hf as [|a b l l' [Hk Hv] _ IH]; [reflexivity|].
    cbn [map]. rewrite IH. unfold render. rewrite Hk, Hv. reflexivity. }
  rewrite <- E. apply sort_items_perm_eq.
  - rewrite map_map. exact Hnd.
  - apply Permutation_map, Hp.
Qed.

Fixpoint stable_json_equiv j1 j2 (H : Fingerprint.json_equiv j1 j2) {struct H} : Fingerprint.stable_json encode_string j1 = Fingerprint.stable_json encode_string j2.
Proof.
  destruct H as [| | | | | l1 l2 Hl | i1 i2 i3 Hnd Hp Hf]; try reflexivity.
  - rewrite !stable_json_JArr. do 3 f_equal.
    induction Hl as [|a b l l' Hab _ IH]; [reflexivity|].
    cbn. rewrite (stable_json_equiv a b Hab), IH. reflexivity.
  - rewrite !stable_json_JObj. do 4 f_equal.
    apply (render_sorted_eq i1 i2 i3 Hnd Hp).
    clear Hp Hnd.
    induction Hf as [|a b l l' [Hk Hv] _ IH]; [constructor|].
    constructor; [|exact IH]. split; [exact Hk | apply stable_json_equiv, Hv].
Qed.

End StableJson.

Lemma hexdigest_length bs : String.length (Fingerprint.hexdigest bs) = (2 * length bs)%nat.
Proof.
  assert (Happ : forall a c, String.length (a ++ c) = (String.length a + String.length c)%nat).
  { induction a as [|x a IHa]; intro c; cbn; [reflexivity|]. rewrite IHa. reflexivity. }
  assert (Hd : forall n, String.length (Fingerprint.hex_digit n) = 1%nat) by reflexivity.
  unfold Fingerprint.hexdigest.
  induction bs as [|b bs IH]; [reflexivity|].
  cbn [fold_right length]. rewrite !Happ, !Hd, IH. lia.
Qed.

Lemma insert_item_map_values {V W} (g : V -> W) (kv : string * V) l :
  Fingerprint.insert_item (fst kv, g (snd kv)) (map (fun p => (fst p, g (snd p))) l)
  = map (fun p => (fst p, g (snd p))) (Fingerprint.insert_item kv l).
Proof.
  induction l as [|x l IH]; cbn; [reflexivity|].
  destruct (String.leb (fst kv) (fst x)); cbn; [reflexivity|]. rewrite IH. reflexivity.
Qed.

Lemma sort_items_map_values {V W} (g : V -> W) (l : list (string * V)) :
  Fingerprint.sort_items (map (fun p => (fst p, g (snd p))) l)
  = map (fun p => (fst p, g (snd p))) (Fingerprint.sort_items l).
Proof.
  unfold Fingerprint.sort_items.
  induction l as [|x l IH]; [reflexivity|].
  cbn [map fold_right]. rewrite IH. apply (insert_item_map_values g x).
Qed.

Lemma sorted_render_equiv encode_string fv1 fv2 :
  Fingerprint.json_equiv (Fingerprint.JObj fv1) (Fingerprint.JObj fv2) ->
  map (render encode_string) (Fingerprint.sort_items fv1)
  = map (render encode_string) (Fingerprint.sort_items fv2).
Proof.
  intro H. inversion H as [| | | | | | i1 i2 i3 Hnd Hp Hf]; subst.
  unfold render. rewrite <- !(sort_items_map_values (Fingerprint.stable_json encode_string)).
  apply (render_sorted_eq encode_string fv1 i2 fv2 Hnd Hp).
  clear Hp Hnd H.
  induction Hf as [|a b l l' [Hk Hv] _ IH]; [constructor|].
  constructor; [|exact IH]. split; [exact Hk | apply stable_json_equiv, Hv].
Qed.

Lemma stable_json_pairs encode_string (L : list (string * Fingerprint.Json)) :
  Fingerprint.stable_json encode_string
    (Fingerprint.JArr (map (fun kv => Fingerprint.JArr [Fingerprint.JStr (fst kv); snd kv]) L))
  = "[" ++ Fingerprint.join ","
            (map (fun p => "[" ++ (encode_string (fst p) ++ "," ++ snd p) ++ "]")
                 (map (render encode_string) L)) ++ "]".
Proof.
  rewrite stable_json_JArr, !map_map. reflexivity.
Qed.

(** C9 *)
(** Claim C9: with [sha256] returning 32 bytes, the training fingerprint is
    the same 64-character hex digest for the same dataset bytes, features,
    label, model type and pipeline version and equal parameter dicts (in any
    key order, at any depth); the prediction fingerprint is the same
    64-character hex digest for the same model id and equal feature dicts. *)
Theorem fingerprints_deterministic (encode_string : string -> string)
    (sha256 : list Byte.byte -> list Byte.byte)
    (Hlen : forall b, length (sha256 b) = 32%nat) :
  (forall csv feats label mt p1 p2 code lock,
     Fingerprint.json_equiv p1 p2 ->
     Fingerprint.compute_training_fingerprint encode_string sha256 csv feats label mt p1 code lock
     = Fingerprint.compute_training_fingerprint encode_string sha256 csv feats label mt p2 code lock
     /\ String.length (Fingerprint.compute_training_fingerprint encode_string sha256
                         csv feats label mt p1 code lock) = 64%nat)
  /\ (forall model_id fv1 fv2,
     Fingerprint.json_equiv (Fingerprint.JObj fv1) (Fingerprint.JObj fv2) ->
     Fingerprint.compute_prediction_fingerprint encode_string sha256 model_id fv1
     = Fingerprint.compute_prediction_fingerprint encode_string sha256 model_id fv2
     /\ String.length (Fingerprint.compute_prediction_fingerprint encode_string sha256
                         model_id fv1) = 64%nat).
Proof.
  split.
  - intros csv feats label mt p1 p2 code lock H.
    unfold Fingerprint.compute_training_fingerprint, Fingerprint.sha256_hex.
    rewrite hexdigest_length, Hlen. split; [|reflexivity].
    rewrite !stable_json_JObj. cbn [map]. unfold render. cbn [fst snd].
    rewrite (stable_json_equiv encode_string p1 p2 H). reflexivity.
  - intros model_id fv1 fv2 H.
    unfold Fingerprint.compute_prediction_fingerprint, Fingerprint.sha256_hex.
    rewrite hexdigest_length, Hlen. split; [|reflexivity].
    rewrite !stable_json_JObj. cbn [map]. unfold render. cbn [fst snd].
    rewrite !stable_json_pairs, (sorted_render_equiv encode_string fv1 fv2 H).
    reflexivity.
Qed.

Lemma fingerprints_deterministic_witness :
  let sha0 := fun _ : list Byte.byte => repeat Byte.x00 32 in
  let p1 := Fingerprint.JObj [("a", Fingerprint.JInt 1); ("b", Fingerprint.JNull)] in
  let p2 := Fingerprint.JObj [("b", Fingerprint.JNull); ("a", Fingerprint.JInt 1)] in
  Fingerprint.json_equiv p1 p2
  /\ Fingerprint.compute_training_fingerprint (fun s => s) sha0 [Byte.x41] ["x"] "y" "linear"
       p1 "code" "lock"
     = Fingerprint.compute_training_fingerprint (fun s => s) sha0 [Byte.x41] ["x"] "y" "linear"
       p2 "code" "lock"
  /\ String.length (Fingerprint.compute_training_fingerprint (fun s => s) sha0 [Byte.x41] ["x"]
       "y" "linear" p1 "code" "lock") = 64%nat.
Proof.
  intros sha0 p1 p2.
  assert (Hlen : forall b, length (sha0 b) = 32%nat) by (intro; reflexivity).
  assert (Hj : Fingerprint.json_equiv p1 p2).
  { apply (Fingerprint.je_obj _ [("b", Fingerprint.JNull); ("a", Fingerprint.JInt 1)]).
    - constructor; [cbn; intros [E|[]]; discriminate | constructor; [intros []|constructor]].
    - apply perm_swap.
    - repeat constructor. }
  split; [exact Hj|].
  exact (proj1 (fingerprints_deterministic (fun s => s) sha0 Hlen)
           [Byte.x41] ["x"] "y" "linear" p1 p2 "code" "lock" Hj).
Defined.

(** ** Witnesses *)

Lemma token_ledger_guards_witness :
  NoDup (map u_id (users c3_store)) /\ find_user c3_store 1 = Some (mkUser 1 5 true)
  /\ 0 <= cost PREDICTION
  /\ UserRepository.update_tokens 1 (cost TRAINING) c3_store
     = (inl NotEnoughTokensException, c3_store).
Proof.
  assert (Hkey : NoDup (map u_id (users c3_store))) by (constructor; [intros []|constructor]).
  assert (Hu : find_user c3_store 1 = Some (mkUser 1 5 true)) by reflexivity.
  assert (Hc : 0 <= cost PREDICTION) by (cbn; lia).
  split; [exact Hkey|]. split; [exact Hu|]. split; [exact Hc|].
  apply (proj1 (proj2 (token_ledger_guards c3_store 1 (mkUser 1 5 true) (cost TRAINING) 10
                          Hkey Hu ltac:(cbn; lia)))).
  cbn; lia.
Defined.


Lemma applied_submission_replays_witness :
  TrainService.train_model 1 "tfp" "m.pkl" (WorkerOk "{}") TRAINING c2w_store
    = (inr (mkResult (mkTM 7 1 "tfp" applied (Some "{}") "m.pkl") false 20), c2w_store)
  /\ PredictService.predict 1 7 "pf" LoadOk (PredictOk "4.0") PREDICTION c2w_store
    = (inr (mkResult (mkPred 8 1 7 "pf" applied "3.5") false 20), c2w_store).
Proof.
  split.
  - apply (proj1 (applied_submission_replays c2w_store (mkUser 1 20 true) 1)
             "tfp" "m.pkl" (WorkerOk "{}") TRAINING); reflexivity.
  - rewrite (proj2 (applied_submission_replays c2w_store (mkUser 1 20 true) 1)
             7%nat "pf" LoadOk (PredictOk "4.0") PREDICTION (mkPred 8 1 7 "pf" applied "3.5")
             eq_refl eq_refl eq_refl).
    reflexivity.
Defined.


(** * Further properties of the code *)

Import Validators ParamRules RateLimit Auth VersionedView.

Lemma drop_space_head l :
  drop_space l = [] \/ exists c r, drop_space l = c :: r /\ py_isspace c = false.
Proof.
  induction l as [|c l IH]; simpl; auto.
  destruct (py_isspace c) eqn:E; auto. right; eauto.
Qed.

Lemma drop_space_noop l :
  (l = [] \/ exists c r, l = c :: r /\ py_isspace c = false) -> drop_space l = l.
Proof.
  intros [->|(c & r & -> & H)]; simpl; [reflexivity|]. now rewrite H.
Qed.

Lemma drop_space_suffix l : exists p, l = (p ++ drop_space l)%list.
Proof.
  induction l as [|c l IH]; simpl. exists []; reflexivity.
  destruct (py_isspace c). destruct IH as [p Hp]. exists (c :: p). simpl. now f_equal.
  exists []; reflexivity.
Qed.

Lemma strip_idem s : strip (strip s) = strip s.
Proof.
  unfold strip. rewrite list_ascii_of_string_of_list_ascii.
  set (l1 := drop_space (list_ascii_of_string s)).
  set (l2 := drop_space (rev l1)).
  assert (H1 := drop_space_head (list_ascii_of_string s)). fold l1 in H1.
  assert (H2 := drop_space_head (rev l1)). fold l2 in H2.
  destruct (drop_space_suffix (rev l1)) as [p Hp]. fold l2 in Hp.
  assert (Hh : drop_space (rev l2) = rev l2).
  { apply drop_space_noop.
    destruct l2 as [|c r] eqn:El2 using rev_ind; [left; reflexivity|].
    right. rewrite rev_app_distr. simpl. exists c, (rev r). split; [reflexivity|].
    apply (f_equal (@rev _)) in Hp. rewrite rev_involutive, !rev_app_distr in Hp.
    simpl in Hp. destruct H1 as [H1|(c' & r' & H1 & H1')].
    - rewrite H1 in Hp. destruct (rev p); discriminate.
    - rewrite H1 in Hp. injection Hp as -> _. exact H1'. }
  rewrite Hh, rev_involutive. rewrite (drop_space_noop l2); [reflexivity|].
  destruct H2 as [H2|(c & r & H2 & H2')]; [left; exact H2|right; eauto].
Qed.

Lemma strip_empty : strip "" = "".
Proof. reflexivity. Qed.

(** [fromkeys] as a fold from any accumulator. *)
Lemma fromkeys_fold_In xs acc x :
  In x (fold_left (fun acc x => if existsb (String.eqb x) acc then acc else (acc ++ [x])%list) xs acc)
  <-> In x acc \/ In x xs.
Proof.
  revert acc; induction xs as [|y xs IH]; intros acc; simpl.
  - tauto.
  - rewrite IH. destruct (existsb (String.eqb y) acc) eqn:E.
    + apply existsb_exists in E as (z & Hz & Ez). apply String.eqb_eq in Ez; subst.
      split; [tauto|]. intros [H|[H|H]]; subst; auto.
    + rewrite in_app_iff. simpl. tauto.
Qed.

Lemma existsb_eqb_In x l : existsb (String.eqb x) l = true <-> In x l.
Proof.
  rewrite existsb_exists. split.
  - intros (y & Hy & E). apply String.eqb_eq in E; subst; auto.
  - intros H. exists x. split; auto. apply String.eqb_refl.
Qed.

Lemma fromkeys_fold_NoDup xs acc :
  NoDup acc ->
  NoDup (fold_left (fun acc x => if existsb (String.eqb x) acc then acc else (acc ++ [x])%list) xs acc).
Proof.
  revert acc; induction xs as [|y xs IH]; intros acc Hnd; simpl; auto.
  apply IH. destruct (existsb (String.eqb y) acc) eqn:E; auto.
  apply NoDup_app; auto. constructor; [intros []|constructor].
  intros z Hz [<-|[]]. apply (proj2 (existsb_eqb_In _ _)) in Hz. congruence.
Qed.

Lemma fromkeys_fold_nodup_id xs acc :
  NoDup xs -> (forall x, In x xs -> ~ In x acc) ->
  fold_left (fun acc x => if existsb (String.eqb x) acc then acc else (acc ++ [x])%list) xs acc
  = (acc ++ xs)%list.
Proof.
  revert acc; induction xs as [|y xs IH]; intros acc Hnd Hout; simpl.
  - now rewrite app_nil_r.
  - inversion Hnd as [|? ? Hy Hxs]; subst.
    destruct (existsb (String.eqb y) acc) eqn:E.
    + apply existsb_eqb_In in E. exfalso; apply (Hout y); simpl; auto.
    + rewrite IH; auto. now rewrite <- app_assoc.
      intros x Hx Hin. apply in_app_iff in Hin as [Hin|[<-|[]]].
      * apply (Hout x); simpl; auto.
      * contradiction.
Qed.

Lemma normalize_features_facts fs :
  NoDup (normalize_features fs) /\
  (forall x, In x (normalize_features fs) <-> x <> "" /\ exists f, In f fs /\ strip f = x) /\
  (forall x, In x (normalize_features fs) -> strip x = x).
Proof.
  assert (Hin : forall x, In x (normalize_features fs) <-> x <> "" /\ exists f, In f fs /\ strip f = x).
  { intros x. unfold normalize_features, fromkeys. rewrite fromkeys_fold_In, filter_In, in_map_iff.
    simpl. rewrite negb_true_iff, String.eqb_neq. firstorder. }
  split; [|split; [exact Hin|]].
  - apply fromkeys_fold_NoDup. constructor.
  - intros x Hx. apply Hin in Hx as (_ & f & _ & <-). apply strip_idem.
Qed.

Lemma normalize_features_idempotent fs :
  normalize_features (normalize_features fs) = normalize_features fs.
Proof.
  destruct (normalize_features_facts fs) as (Hnd & Hin & Hst).
  set (out := normalize_features fs) in *.
  unfold normalize_features at 1, fromkeys.
  rewrite (map_ext_in strip id out) by (intros; unfold id; auto). rewrite map_id.
  rewrite (forallb_filter_id _ out).
  - rewrite fromkeys_fold_nodup_id; auto.
  - apply forallb_forall. intros x Hx. apply Hin in Hx as [Hx _].
    apply negb_true_iff, String.eqb_neq; auto.
Qed.

(** X1: [normalize_features] returns a list without duplicates whose elements are exactly the non-empty stripped input names, each already stripped; applying it twice gives the same list as once. *)
Theorem normalize_features_spec fs :
  NoDup (normalize_features fs) /\
  (forall x, In x (normalize_features fs) <-> x <> "" /\ exists f, In f fs /\ strip f = x) /\
  (forall x, In x (normalize_features fs) -> strip x = x) /\
  normalize_features (normalize_features fs) = normalize_features fs.
Proof.
  destruct (normalize_features_facts fs) as (H1 & H2 & H3).
  split; [exact H1|split; [exact H2|split; [exact H3|apply normalize_features_idempotent]]].
Qed.

Lemma dict_set_keys {V} k (v : V) d x :
  In x (map fst (dict_set k v d)) <-> x = k \/ In x (map fst d).
Proof.
  induction d as [|[k' v'] d IH]; simpl; [intuition (subst; auto)|].
  destruct (String.eqb k' k) eqn:E; simpl.
  - apply String.eqb_eq in E; subst. intuition (subst; auto).
  - rewrite IH. intuition (subst; auto).
Qed.

Lemma dict_set_nodup {V} k (v : V) d :
  NoDup (map fst d) -> NoDup (map fst (dict_set k v d)).
Proof.
  induction d as [|[k' v'] d IH]; simpl; intros Hnd.
  - constructor; [intros []|constructor].
  - inversion Hnd as [|? ? Hn Hd]; subst.
    destruct (String.eqb k' k) eqn:E; simpl; constructor; auto.
    rewrite dict_set_keys. intros [->|H]; [rewrite String.eqb_refl in E; discriminate|auto].
Qed.

Lemma dict_get_set {V} k (v : V) d x :
  dict_get x (dict_set k v d) = if String.eqb k x then Some v else dict_get x d.
Proof.
  unfold dict_get. induction d as [|[k' v'] d IH]; simpl.
  - destruct (String.eqb k x); reflexivity.
  - destruct (String.eqb k' k) eqn:E; simpl.
    + apply String.eqb_eq in E; subst. destruct (String.eqb k x); reflexivity.
    + destruct (String.eqb k' x) eqn:E'; simpl.
      * apply String.eqb_eq in E'; subst.
        destruct (String.eqb k x) eqn:E''; [apply String.eqb_eq in E''; subst;
          rewrite String.eqb_refl in E; discriminate|reflexivity].
      * exact IH.
Qed.

Lemma normalize_items_ok {V} (items out0 out : list (string * V)) :
  normalize_items items out0 = inr out ->
  (NoDup (map fst out0) -> NoDup (map fst out)) /\
  ((forall k, In k (map fst out0) -> k <> "" /\ strip k = k) ->
   forall k, In k (map fst out) -> k <> "" /\ strip k = k) /\
  (forall k, dict_get k out =
             match last_value k items with Some v => Some v | None => dict_get k out0 end).
Proof.
  revert out0; induction items as [|[k v] items IH]; intros out0 H; simpl in H.
  - injection H as <-. simpl. auto.
  - destruct (String.eqb (strip k) "") eqn:E; [discriminate|].
    destruct (IH _ H) as (H1 & H2 & H3). split; [|split].
    + intros Hnd. apply H1, dict_set_nodup, Hnd.
    + intros Hk. apply H2. intros k' Hk'. apply dict_set_keys in Hk' as [->|Hk'].
      * split; [apply String.eqb_neq; exact E|apply strip_idem].
      * auto.
    + intros k'. rewrite H3, dict_get_set. simpl.
      destruct (last_value k' items); [reflexivity|].
      destruct (String.eqb (strip k) k'); reflexivity.
Qed.

Lemma normalize_items_error {V} (items out0 : list (string * V)) :
  (exists e, normalize_items items out0 = inl e) <-> exists k v, In (k, v) items /\ strip k = "".
Proof.
  revert out0; induction items as [|[k v] items IH]; intros out0; simpl.
  - split; [intros (e & H); discriminate|intros (? & ? & [] & _)].
  - destruct (String.eqb (strip k) "") eqn:E.
    + split; [intros _|eauto]. apply String.eqb_eq in E. exists k, v. auto.
    + rewrite IH. split; [intros (k' & v' & Hin & Hs); eauto|].
      intros (k' & v' & [Heq|Hin] & Hs); eauto.
      injection Heq as -> ->. rewrite Hs in E. discriminate.
Qed.

(** X2: [normalize_params] of a dict raises exactly when some key strips to the empty string; on success the result has distinct, non-empty, stripped keys and maps each stripped key to the value of the last input item with that stripped key. *)
Theorem normalize_params_spec {V} (items out : list (string * V)) :
  ((exists e, normalize_params (Some items) = inl e) <->
   exists k v, In (k, v) items /\ strip k = "") /\
  (normalize_params (Some items) = inr out ->
   NoDup (map fst out) /\
   (forall k, In k (map fst out) -> k <> "" /\ strip k = k) /\
   (forall k, dict_get k out = last_value k items)).
Proof.
  split; [apply normalize_items_error|].
  intros H. destruct (normalize_items_ok _ _ _ H) as (H1 & H2 & H3). split; [|split].
  - apply H1. constructor.
  - apply H2. intros k [].
  - intros k. rewrite H3. destruct (last_value k items); reflexivity.
Qed.

(** X3: [ensure_features_valid] accepts exactly when the normalized feature list is non-empty, does not contain the stripped label, and names only existing columns; it then returns that normalized list. *)
Theorem ensure_features_valid_iff columns features label out :
  ensure_features_valid columns features label = inr out <->
  out = normalize_features features /\ out <> [] /\
  ~ In (strip (match label with Some l => l | None => "" end)) out /\
  (forall f, In f out -> In f columns).
Proof.
  unfold ensure_features_valid.
  set (lc := strip (match label with Some l => l | None => "" end)).
  destruct (normalize_features features) as [|c cs] eqn:E.
  - split; [discriminate|intros (-> & H & _); exfalso; now apply H].
  - destruct (existsb (String.eqb lc) (c :: cs)) eqn:El.
    + split; [discriminate|]. intros (-> & _ & Hn & _). apply existsb_eqb_In in El. contradiction.
    + destruct (filter (fun f => negb (existsb (String.eqb f) columns)) (c :: cs)) as [|m ms] eqn:Ef.
      * split.
        -- intros H; injection H as <-. split; [reflexivity|]. split; [discriminate|]. split.
           ++ intros Hin. apply existsb_eqb_In in Hin. congruence.
           ++ intros f Hf. destruct (existsb (String.eqb f) columns) eqn:Hc.
              ** apply existsb_eqb_In; exact Hc.
              ** assert (In f (filter (fun f => negb (existsb (String.eqb f) columns)) (c :: cs)))
                   by (apply filter_In; rewrite Hc; auto).
                 rewrite Ef in H. destruct H.
        -- intros (-> & _). reflexivity.
      * split; [discriminate|]. intros (-> & _ & _ & Hall).
        assert (Hm : In m (filter (fun f => negb (existsb (String.eqb f) columns)) (c :: cs)))
          by (rewrite Ef; left; reflexivity).
        apply filter_In in Hm as [Hm Hn]. apply Hall, existsb_eqb_In in Hm.
        rewrite Hm in Hn. discriminate.
Qed.

Lemma check_values_In mt params k v rule :
  check_values mt params = inr tt -> In (k, v) params -> PARAM_RULES mt k = Some rule -> rule v = true.
Proof.
  induction params as [|[k' v'] params IH]; simpl; [intros _ []|].
  intros H [Heq|Hin] Hr.
  - injection Heq as -> ->. rewrite Hr in H. destruct (rule v); [reflexivity|discriminate].
  - destruct (PARAM_RULES mt k'); [destruct (b v'); [|discriminate]|]; auto.
Qed.

Lemma dict_get_In {V} k (d : list (string * V)) v : dict_get k d = Some v -> In (k, v) d.
Proof.
  unfold dict_get. destruct (find _ d) as [[k' v']|] eqn:E; simpl; [|discriminate].
  intros [= <-]. apply find_some in E as [Hin Hk]. apply String.eqb_eq in Hk. simpl in Hk. subst. exact Hin.
Qed.

(** X4: When [validate_param_values "logistic"] accepts a parameter dict, the penalty (default ["l2"]) and the solver (default ["lbfgs"]) are strings forming one of the ten pairs of [_VALID_SOLVERS]. *)
Theorem logistic_accepted_pairs params :
  validate_param_values "logistic" params = inr tt ->
  exists penalty solver,
    get_or "penalty" (PyStr "l2") params = PyStr penalty /\
    get_or "solver" (PyStr "lbfgs") params = PyStr solver /\
    In (penalty, solver)
       [("l2", "lbfgs"); ("l2", "newton-cg"); ("l2", "saga"); ("l2", "liblinear");
        ("l1", "liblinear"); ("l1", "saga"); ("elasticnet", "saga");
        ("none", "lbfgs"); ("none", "newton-cg"); ("none", "saga")].
Proof.
  unfold validate_param_values. destruct (check_values "logistic" params) as [e|[]] eqn:Hc;
    [discriminate|]. simpl. unfold validate_logistic_semantics.
  assert (Hp : exists p, get_or "penalty" (PyStr "l2") params = PyStr p /\
                         In p ["l1"; "l2"; "elasticnet"; "none"]).
  { unfold get_or. destruct (dict_get "penalty" params) as [v|] eqn:E.
    - apply dict_get_In in E. eapply check_values_In in E; [|exact Hc|reflexivity].
      destruct v; try discriminate. exists s. split; [reflexivity|]. apply existsb_eqb_In, E.
    - exists "l2". simpl; auto. }
  assert (Hs : forall allowed, (match get_or "solver" (PyStr "lbfgs") params with
                 | PyContainer => inl TypeError
                 | PyStr s => if existsb (String.eqb s) allowed then inr tt else inl InvalidParamException
                 | _ => inl InvalidParamException end) = @inr ValidationError unit tt ->
               exists s, get_or "solver" (PyStr "lbfgs") params = PyStr s /\ In s allowed).
  { intros allowed H. destruct (get_or "solver" (PyStr "lbfgs") params); try discriminate.
    exists s. split; [reflexivity|]. destruct (existsb (String.eqb s) allowed) eqn:E; [|discriminate].
    apply existsb_eqb_In, E. }
  destruct Hp as (p & Hp & Hpin). rewrite Hp. intros H.
  exists p. simpl in Hpin.
  destruct Hpin as [<-|[<-|[<-|[<-|[]]]]].
  - destruct (Hs ["liblinear"; "saga"] H) as (s & Hs' & Hsin).
    exists s. do 2 (split; auto). simpl in Hsin |- *. intuition (subst; auto).
  - destruct (Hs ["lbfgs"; "newton-cg"; "saga"; "liblinear"] H) as (s & Hs' & Hsin).
    exists s. do 2 (split; auto). simpl in Hsin |- *. intuition (subst; auto).
  - destruct (Hs ["saga"] H) as (s & Hs' & Hsin).
    exists s. do 2 (split; auto). simpl in Hsin |- *. intuition (subst; auto).
  - destruct (Hs ["lbfgs"; "newton-cg"; "saga"] H) as (s & Hs' & Hsin).
    exists s. do 2 (split; auto). simpl in Hsin |- *. intuition (subst; auto).
Qed.

Lemma ltrim0_firstn max l :
  1 <= max -> ltrim0 (max - 1) l = firstn (Z.to_nat max) l.
Proof.
  intros H. unfold ltrim0. destruct (Z.ltb (max - 1) 0) eqn:E; [apply Z.ltb_lt in E; lia|].
  rewrite E. f_equal. lia.
Qed.

Lemma nth_error_firstn_lt {A} (l : list A) n i :
  (i < n)%nat -> nth_error (firstn n l) i = nth_error l i.
Proof.
  revert n i; induction l as [|x l IH]; intros [|n] [|i] H; simpl; try lia; auto.
  apply IH. lia.
Qed.

Lemma prefix_length (L B : list Z) :
  L = firstn (length L) B -> (length L <= length B)%nat.
Proof.
  intros H. rewrite H at 1. rewrite length_firstn. lia.
Qed.

Lemma rev_head_last (L : list Z) o rest :
  rev L = o :: rest -> nth_error L (length L - 1) = Some o.
Proof.
  intros H. assert (E : L = (rev rest ++ [o])%list)
    by (rewrite <- (rev_involutive L), H; reflexivity).
  subst L. rewrite length_app. simpl.
  replace (length (rev rest) + 1 - 1)%nat with (length (rev rest)) by lia.
  rewrite nth_error_app2 by lia. rewrite Nat.sub_diag. reflexivity.
Qed.

Lemma nth_error_le_time B t i a :
  Forall (fun x => x <= t) B -> nth_error B i = Some a -> a <= t.
Proof.
  intros HF H. apply nth_error_In in H. rewrite Forall_forall in HF. auto.
Qed.

Lemma rl_step m window t k B :
  (1 <= m)%nat -> rl_inv m window k B -> mono B -> spaced m window B ->
  Forall (fun x => x <= t) B ->
  let '(res, k') := check_rate_limit (Z.of_nat m) window t k in
  match res with
  | inr _ => rl_inv m window k' (t :: B) /\ mono (t :: B) /\ spaced m window (t :: B)
  | inl _ => k' = k
  end.
Proof.
  intros Hm Hinv Hmono Hsp Ht.
  assert (Hmono' : mono (t :: B)).
  { intros [|i] [|j] a b Hij Hb Ha; simpl in *; try lia.
    - injection Hb as <-. injection Ha as <-. lia.
    - injection Hb as <-. eapply nth_error_le_time; eauto.
    - eapply Hmono; [|exact Hb|exact Ha]. lia. }
  unfold check_rate_limit.
  rewrite ltrim0_firstn by lia. rewrite Nat2Z.id.
  destruct B as [|newest B0] eqn:EB.
  - (* no accepted call yet *)
    simpl in Hinv. subst k. simpl.
    destruct (Z.ltb 0 (Z.of_nat m)) eqn:E; [|apply Z.ltb_ge in E; lia].
    destruct m as [|m']; [lia|]. simpl. rewrite firstn_nil.
    split; [|split; [exact Hmono'|]].
    + exists [t]. split; [reflexivity|]. split; [discriminate|]. split; [reflexivity|].
      split; [simpl; lia|]. intros _ [|i] a Hi Ha; simpl in *; [lia|]. destruct i; discriminate.
    + intros i a b Hb Ha. destruct i; simpl in Ha; destruct m'; simpl in Ha; try discriminate;
        destruct i; simpl in Ha; try discriminate; destruct (i + S m')%nat; discriminate.
  - unfold rl_inv in Hinv. destruct Hinv as (L & -> & HLne & HLpre & HLm & HLgap).
    rewrite <- EB in *.
    assert (Hspaced0 : forall a, nth_error B (m - 1) = Some a -> window <= t - a ->
                         spaced m window (t :: B)).
    { intros a0 Ha0 Hw [|i] a b Hb Ha; simpl in Hb.
      - injection Hb as <-. destruct m as [|m']; [lia|]. simpl in Ha.
        replace (S m' - 1)%nat with m' in Ha0 by lia. rewrite Ha0 in Ha. injection Ha as <-. exact Hw.
      - simpl in Ha. eapply Hsp; eauto. }
    cbv beta iota delta [lrange]. cbn [rl_expires_at rl_list].
    destruct (Z.ltb t (newest + window)) eqn:Elive.
    + (* the key is live *)
      destruct (Z.ltb (Z.of_nat (length L)) (Z.of_nat m)) eqn:Elen.
      * apply Z.ltb_lt in Elen. apply Nat2Z.inj_lt in Elen.
        rewrite firstn_all2 by (simpl; lia).
        split; [|split; [exact Hmono'|]].
        -- exists (t :: L). split; [reflexivity|]. split; [discriminate|].
           split; [simpl; f_equal; exact HLpre|]. split; [simpl; lia|].
           intros Hlt [|i] a Hi Ha; simpl in Hi |- *; [lia|].
           simpl in Ha. destruct (length L) as [|n] eqn:En; [destruct L; simpl in En; [congruence|discriminate]|].
           replace (n - 0)%nat with n by lia.
           pose proof (HLgap ltac:(lia) i a ltac:(lia) Ha) as Hg.
           replace (S n - 1)%nat with n in Hg by lia.
           replace (S n - 0)%nat with (S n) by lia. exact Hg.
        -- destruct (nth_error B (m - 1)) as [a0|] eqn:Ea0.
           ++ apply (Hspaced0 a0 eq_refl).
              assert (Hg := HLgap Elen (m - 1)%nat a0 ltac:(lia) Ea0).
              assert (Hlast : nth (length L - 1) B 0 <= t).
              { destruct (nth_error B (length L - 1)) as [o|] eqn:Eo.
                - erewrite nth_error_nth; [|exact Eo]. eapply nth_error_le_time; eauto.
                - apply nth_error_None in Eo. pose proof (prefix_length L B HLpre).
                  destruct L; [congruence|]. simpl in *. lia. }
              lia.
           ++ intros [|i] a b Hb Ha; simpl in Hb.
              ** destruct m as [|m']; [lia|]. simpl in Ha. replace (S m' - 1)%nat with m' in Ea0 by lia.
                 congruence.
              ** simpl in Ha. eapply Hsp; eauto.
      * apply Z.ltb_ge in Elen. apply Nat2Z.inj_le in Elen.
        assert (HlenL : length L = m) by lia.
        destruct (rev L) as [|oldest rest] eqn:Erev.
        { apply (f_equal (@rev Z)) in Erev. rewrite rev_involutive in Erev. congruence. }
        assert (Hold : nth_error B (m - 1) = Some oldest).
        { pose proof (rev_head_last L oldest rest Erev) as Hl.
          rewrite HlenL in Hl. rewrite HLpre, HlenL, nth_error_firstn_lt in Hl by lia. exact Hl. }
        destruct (Z.ltb (t - oldest) window) eqn:Ew; [reflexivity|].
        apply Z.ltb_ge in Ew.
        split; [|split; [exact Hmono'|apply (Hspaced0 oldest Hold); lia]].
        destruct m as [|m']; [lia|]. cbn [firstn].
        assert (HlenF : length (firstn m' L) = m') by (rewrite length_firstn; lia).
        exists (t :: firstn m' L). split; [reflexivity|]. split; [discriminate|].
        simpl length. rewrite HlenF. split; [|split; [lia|intros; lia]].
        cbn [firstn]. f_equal. rewrite HLpre at 1. rewrite HlenL, firstn_firstn. f_equal. lia.
    + (* the key has expired *)
      apply Z.ltb_ge in Elive. simpl.
      destruct (Z.ltb 0 (Z.of_nat m)) eqn:E; [|apply Z.ltb_ge in E; lia].
      destruct m as [|m']; [lia|]. simpl. rewrite firstn_nil.
      split; [|split; [exact Hmono'|]].
      * exists [t]. split; [reflexivity|]. split; [discriminate|]. split; [reflexivity|].
        split; [simpl; lia|]. intros _ [|i] a Hi Ha; simpl in *; [lia|].
        assert (a <= newest).
        { eapply (Hmono 0%nat i); [lia|rewrite EB; reflexivity|exact Ha]. }
        lia.
      * intros [|i] a b Hb Ha; simpl in Hb.
        -- injection Hb as <-. simpl in Ha.
           assert (a <= newest) by (eapply (Hmono 0%nat m'); [lia|rewrite EB; reflexivity|exact Ha]).
           lia.
        -- simpl in Ha. eapply Hsp; eauto.
Qed.

Lemma run_spaced m window times k B :
  (1 <= m)%nat -> Sorted Z.le times ->
  rl_inv m window k B -> mono B -> spaced m window B ->
  (forall t, In t times -> Forall (fun x => x <= t) B) ->
  spaced m window (snd (run (Z.of_nat m) window times k B)).
Proof.
  intros Hm Hs. apply Sorted_StronglySorted in Hs; [|intros x y z; lia].
  revert k B. induction Hs as [|t rest Hs IH Hle]; intros k B Hinv Hmono Hsp Hts; [exact Hsp|].
  simpl. pose proof (rl_step m window t k B Hm Hinv Hmono Hsp (Hts t (or_introl eq_refl))) as Hstep.
  destruct (check_rate_limit (Z.of_nat m) window t k) as [[e|u] k'].
  - subst k'. apply IH; auto. intros t' Ht'. apply Hts. now right.
  - destruct Hstep as (Hinv' & Hmono' & Hsp'). apply IH; auto.
    intros t' Ht'. constructor.
    + rewrite Forall_forall in Hle. now apply Hle.
    + apply Hts. now right.
Qed.

(** X8: Among the calls [check_rate_limit] lets through on sorted call times from an empty key, a call and the call [max_requests] places later are at least [window] seconds apart. *)
Theorem rate_limit_sliding_window max_requests window times :
  1 <= max_requests -> Sorted Z.le times ->
  forall i a b,
    nth_error (snd (run max_requests window times None [])) i = Some b ->
    nth_error (snd (run max_requests window times None [])) (i + Z.to_nat max_requests) = Some a ->
    window <= b - a.
Proof.
  intros Hmax Hs i a b Hb Ha.
  assert (E : Z.of_nat (Z.to_nat max_requests) = max_requests) by lia.
  pose proof (run_spaced (Z.to_nat max_requests) window times None [] ltac:(lia) Hs eq_refl)
    as HS.
  rewrite E in HS. refine (HS _ _ _ i a b Hb Ha).
  - intros i' j a' b' _ H. destruct i'; discriminate.
  - intros i' a' b' H. destruct i'; discriminate.
  - intros t _. constructor.
Qed.

(** X9: A call refused by [check_rate_limit] leaves the stored key as it was and reports a retry delay of at least 1, and at most [window] when no stored call time lies after [now]. *)
Theorem rate_limit_refusal max_requests window now k ra k' :
  check_rate_limit max_requests window now k = (inl (RateLimitException ra), k') ->
  k' = k /\ 1 <= ra /\ (Forall (fun x => x <= now) (lrange now k) -> ra <= window).
Proof.
  unfold check_rate_limit.
  destruct (Z.ltb (Z.of_nat (length (lrange now k))) max_requests); [discriminate|].
  destruct (rev (lrange now k)) as [|oldest rest] eqn:Er; [discriminate|].
  destruct (Z.ltb (now - oldest) window) eqn:Ew; [|discriminate].
  intros H; injection H as <- <-. apply Z.ltb_lt in Ew.
  split; [reflexivity|]. split; [lia|]. intros HF.
  assert (In oldest (lrange now k)) by (apply in_rev; rewrite Er; now left).
  rewrite Forall_forall in HF. specialize (HF oldest H). lia.
Qed.

(** X10: [check_rate_limit] fails with an IndexError exactly when [max_requests] is not positive and the key holds no live call times. *)
Theorem rate_limit_index_error max_requests window now k :
  fst (check_rate_limit max_requests window now k) = inl IndexError <->
  max_requests <= 0 /\ lrange now k = [].
Proof.
  unfold check_rate_limit.
  destruct (Z.ltb (Z.of_nat (length (lrange now k))) max_requests) eqn:El.
  - simpl. apply Z.ltb_lt in El. split; [discriminate|].
    intros [H1 H2]. rewrite H2 in El. simpl in El. lia.
  - apply Z.ltb_ge in El.
    destruct (rev (lrange now k)) as [|oldest rest] eqn:Er.
    + assert (lrange now k = []) by (rewrite <- (rev_involutive (lrange now k)), Er; reflexivity).
      rewrite H in El. simpl in El. simpl. tauto.
    + split.
      * destruct (Z.ltb (now - oldest) window); discriminate.
      * intros [_ H]. rewrite H in Er. discriminate.
Qed.

Lemma find_map_same {A} (p : A -> bool) (f : A -> A) l :
  (forall x, p (f x) = p x) ->
  find p (map f l) = option_map f (find p l).
Proof.
  intros Hp. induction l as [|x l IH]; simpl; auto.
  rewrite Hp. destruct (p x); auto.
Qed.

(** X11: Logout ([revoke_refresh_token]) always succeeds.  When no session holds the token's hash the store is unchanged; otherwise every row of that session is revoked, and a later rotation with the same token fails with a reuse or invalid-token error without changing the store. *)
Theorem logout_revokes_session hash_token (user : User) refresh_token s :
  let '(res, s') := request (revoke_refresh_token hash_token user refresh_token) s in
  res = inr tt /\
  match find (fun r => String.eqb (s_refresh_token_hash r) (hash_token refresh_token))
             (auth_sessions s) with
  | None => s' = s
  | Some row =>
      (forall x, In x (auth_sessions s') -> s_session_id x = s_session_id row -> s_revoked x = true) /\
      forall now new_raw,
        exists e, request (rotate_refresh_token hash_token refresh_token now new_raw) s' = (inl e, s') /\
                  (e = ReusedTokenException \/ e = InvalidTokenException)
  end.
Proof.
  unfold request, revoke_refresh_token, get_refresh_token, bind, get, ret, put. simpl.
  destruct (find (fun r => String.eqb (s_refresh_token_hash r) (hash_token refresh_token))
                 (auth_sessions s)) as [row|] eqn:Ef; simpl; [|auto].
  unfold revoke_by_session, bind, get, put. simpl.
  set (p := fun r => String.eqb (s_session_id r) (s_session_id row)).
  split; [reflexivity|]. split.
  - intros x Hx Hsid. simpl in Hx. apply in_map_iff in Hx as (y & <- & Hy).
    unfold p. destruct (String.eqb (s_session_id y) (s_session_id row)) eqn:E.
    + reflexivity.
    + apply String.eqb_neq in E. simpl in Hsid. contradiction.
  - intros now new_raw. unfold rotate_refresh_token, get_refresh_token, bind, get, ret. simpl.
    rewrite (find_map_same _ (fun r => if p r then revoked_copy r else r)).
    2: { intros x. destruct (p x); reflexivity. }
    rewrite Ef. simpl.
    assert (Hp : p row = true) by (unfold p; apply String.eqb_refl). rewrite Hp. simpl.
    destruct (find_user _ (s_user_id row)) as [u|]; simpl.
    + destruct (u_is_active u); simpl; eexists; split; eauto.
    + eexists; split; eauto.
Qed.

Lemma find_app_none {A} (p : A -> bool) l m :
  (forall y, In y l -> p y = false) -> find p (l ++ m) = find p m.
Proof.
  induction l as [|y l IH]; intros H; simpl; auto.
  rewrite H by (now left). apply IH. intros z Hz. apply H. now right.
Qed.

Lemma map_app_none {A} (p : A -> bool) (f : A -> A) l m :
  (forall y, In y l -> p y = false) ->
  map (fun r => if p r then f r else r) (l ++ m) = (l ++ map (fun r => if p r then f r else r) m)%list.
Proof.
  intros H. rewrite map_app. f_equal. rewrite <- (map_id l) at 2. apply map_ext_in.
  intros y Hy. now rewrite H.
Qed.

Lemma last_default_irrel {A} (l : list A) d1 d2 : l <> [] -> last l d1 = last l d2.
Proof.
  induction l as [|x l IH]; intros H; [congruence|].
  destruct l; [reflexivity|]. simpl. apply IH. discriminate.
Qed.

Lemma last_cons_default {A} (x : A) l d : last (x :: l) d = last l x.
Proof.
  destruct l as [|y l]; [reflexivity|].
  change (last (y :: l) d = last (y :: l) x). apply last_default_irrel. discriminate.
Qed.

Lemma refresh_sequence_ok hash_token s uid u t0 sid :
  find_user s uid = Some u -> u_is_active u = true ->
  ~ In sid (map s_session_id (auth_sessions s)) ->
  forall steps cur lst prev s1,
  users s1 = users s ->
  auth_sessions s1 = (auth_sessions s ++
    [mkAS sid uid (hash_token cur) lst false (prev + 3600) (t0 + 86400)])%list ->
  opt_string_eqb lst (hash_token cur) = false ->
  NoDup (map hash_token (cur :: map snd steps)) ->
  (forall raw, In raw (cur :: map snd steps) ->
     ~ In (hash_token raw) (map s_refresh_token_hash (auth_sessions s))) ->
  within_limits t0 prev steps ->
  fst (refresh_sequence hash_token cur steps s1) = inr (last (map snd steps) cur).
Proof.
  intros Hu Ha Hsid steps. induction steps as [|[t raw] rest IH];
    intros cur lst prev s1 Hus Hss Hlst Hnd Hfresh Hlim; [reflexivity|].
  simpl in Hlim. destruct Hlim as (Ht1 & Ht2 & Hlim).
  change (map snd ((t, raw) :: rest)) with (raw :: map snd rest).
  rewrite last_cons_default. cbn [refresh_sequence].
  assert (Hnone : forall y, In y (auth_sessions s) ->
            String.eqb (s_refresh_token_hash y) (hash_token cur) = false).
  { intros y Hy. apply String.eqb_neq. intros E. apply (Hfresh cur (or_introl eq_refl)).
    rewrite <- E. now apply in_map. }
  assert (Hu1 : find_user s1 uid = Some u) by (unfold find_user; now rewrite Hus).
  unfold request, rotate_refresh_token, get_refresh_token, bind, get, ret. cbn zeta.
  rewrite Hss, find_app_none by exact Hnone. simpl. rewrite String.eqb_refl. simpl.
  rewrite Hu1, Ha. simpl.
  destruct (Z.ltb (prev + 3600) t) eqn:E1; [apply Z.ltb_lt in E1; lia|].
  destruct (Z.ltb (t0 + 86400) t) eqn:E2; [apply Z.ltb_lt in E2; lia|].
  rewrite Hlst. unfold rotate_repo, bind, get, put, ret. simpl.
  apply (IH raw (Some (hash_token cur)) t); simpl; auto.
  - rewrite Hss, map_app_none.
    2: { intros y Hy. apply String.eqb_neq. intros E. apply Hsid. rewrite <- E. now apply in_map. }
    simpl. rewrite String.eqb_refl. reflexivity.
  - simpl in Hnd. inversion Hnd as [|? ? Hn Hnd']. subst.
    apply String.eqb_neq. intros E. apply Hn. rewrite E. now left.
  - inversion Hnd. assumption.
  - intros r Hr. apply Hfresh. now right.
Qed.

(** X12: Issuing a refresh token for an active user with fresh random values and then rotating with each token received, each within the sliding (3600 s) and absolute (86400 s) lifetimes, succeeds at every step and ends with the last token drawn. *)
Theorem session_refresh_chain hash_token s uid u now0 raw0 sid steps :
  find_user s uid = Some u -> u_is_active u = true ->
  ~ In sid (map s_session_id (auth_sessions s)) ->
  NoDup (map hash_token (raw0 :: map snd steps)) ->
  (forall raw, In raw (raw0 :: map snd steps) ->
     ~ In (hash_token raw) (map s_refresh_token_hash (auth_sessions s))) ->
  within_limits now0 now0 steps ->
  exists s1,
    request (issue_refresh_token hash_token uid now0 raw0 sid) s = (inr raw0, s1) /\
    fst (refresh_sequence hash_token raw0 steps s1) = inr (last (map snd steps) raw0).
Proof.
  intros Hu Ha Hsid Hnd Hfresh Hlim.
  eexists. split; [reflexivity|].
  apply (refresh_sequence_ok hash_token s uid u now0 sid Hu Ha Hsid steps raw0 None now0);
    auto.
Qed.

Lemma redis_get_set k v r x :
  redis_get x (redis_set k v r) = if String.eqb k x then Some v else redis_get x r.
Proof.
  unfold redis_get, redis_set. simpl. destruct (String.eqb k x) eqn:E.
  - reflexivity.
  - induction r as [|[k' v'] r IH]; simpl; [reflexivity|].
    destruct (String.eqb k' k) eqn:E1; simpl.
    + apply String.eqb_eq in E1; subst. rewrite E. exact IH.
    + destruct (String.eqb k' x); [reflexivity|exact IH].
Qed.

Lemma redis_get_delete k r x :
  redis_get x (redis_delete k r) = if String.eqb k x then None else redis_get x r.
Proof.
  unfold redis_get, redis_delete. destruct (String.eqb k x) eqn:E.
  - apply String.eqb_eq in E; subst.
    induction r as [|[k' v'] r IH]; simpl; [reflexivity|].
    destruct (String.eqb k' x) eqn:E1; simpl; [exact IH|]. rewrite E1. exact IH.
  - induction r as [|[k' v'] r IH]; simpl; [reflexivity|].
    destruct (String.eqb k' k) eqn:E1; simpl.
    + apply String.eqb_eq in E1; subst. rewrite E. exact IH.
    + destruct (String.eqb k' x); [reflexivity|exact IH].
Qed.

Lemma view_keys_distinct lk vk sp :
  In (lk, vk, sp) view_keys ->
  String.eqb lk vk = false /\ forall x, String.eqb lk (sp ++ x) = false /\ String.eqb vk (sp ++ x) = false.
Proof.
  simpl. intros H.
  repeat (destruct H as [H|H]; [injection H as <- <- <-; split; [reflexivity|intros x; split; reflexivity]|]).
  destruct H.
Qed.

Lemma opt_eqb_true a b : opt_eqb a b = true <-> a = Some b.
Proof.
  destruct a; simpl; [rewrite String.eqb_eq; split; congruence|split; discriminate].
Qed.

Section Views.
Variables (dumps : Fingerprint.Json -> string) (loads : string -> option Fingerprint.Json)
          (latest : Store -> option string) (rows : Store -> Fingerprint.Json).
Variables (lk vk sp : string).
Hypothesis Hkeys : In (lk, vk, sp) view_keys.


(** The cache phase of a view at data version [v]: its data and Redis after it. *)
Lemma view_cache_phase s r v user action :
  latest s = Some v ->
  exists d r',
    redis_get vk r' = Some v /\ redis_get (view_seen_key sp user) r' = redis_get (view_seen_key sp user) r /\
    ((redis_get vk r <> Some v \/ redis_get lk r = None) -> d = rows s) /\
    versioned_view dumps loads latest rows lk vk sp user action (s, r) =
    (if opt_eqb (redis_get (view_seen_key sp user) r') v
     then (inr (mkResult d false (u_tokens user)), (s, r'))
     else match UserRepository.update_tokens (u_id user) (cost action) s with
          | (inl e, s') => (inl (DbError e), (s', r'))
          | (inr b, s') => (inr (mkResult d true b), (s', redis_set (view_seen_key sp user) v r'))
          end).
Proof.
  intros Hv. destruct (view_keys_distinct _ _ _ Hkeys) as [Hlv Hsp].
  destruct (Hsp (Fingerprint.string_of_Z (Z.of_nat (u_id user)))) as [Hls Hvs]. fold (view_seen_key sp user) in Hls, Hvs.
  unfold versioned_view, rbind, db_read. simpl. rewrite Hv. fold (view_seen_key sp user).
  unfold CacheRepository.get_version, CacheRepository.get_list, CacheRepository.set_list,
         CacheRepository.set_version, rret. simpl.
  destruct (opt_eqb (redis_get vk r) v) eqn:Ev.
  - apply opt_eqb_true in Ev.
    destruct (match redis_get lk r with
              | None => None
              | Some raw => match loads raw with Some Fingerprint.JNull => None | j => j end
              end) as [c|] eqn:Ec.
    + exists c, r. split; [exact Ev|split; [reflexivity|]]. split.
      * intros [H|H]; [congruence|]. rewrite H in Ec. discriminate.
      * simpl. rewrite Ec. simpl. destruct (opt_eqb (redis_get (view_seen_key sp user) r) v); [reflexivity|].
        unfold db. cbn [fst snd]. destruct (UserRepository.update_tokens (u_id user) (cost action) s) as [[e|b] s']; reflexivity.
    + exists (rows s), (redis_set lk (dumps (rows s)) r).
      rewrite !redis_get_set, Hlv, Hls. split; [exact Ev|split; [reflexivity|]]. split; [auto|].
      simpl. rewrite Ec. simpl. rewrite redis_get_set, Hls. destruct (opt_eqb (redis_get (view_seen_key sp user) r) v); [reflexivity|].
      unfold db. cbn [fst snd]. destruct (UserRepository.update_tokens (u_id user) (cost action) s) as [[e|b] s']; reflexivity.
  - exists (rows s), (redis_set vk v (redis_set lk (dumps (rows s)) r)).
    rewrite !redis_get_set, String.eqb_refl, Hvs, Hls. split; [reflexivity|split; [reflexivity|]].
    split; [auto|].
    simpl. rewrite !redis_get_set, Hvs, Hls.
    destruct (opt_eqb (redis_get (view_seen_key sp user) r) v); [reflexivity|].
    unfold db. cbn [fst snd]. destruct (UserRepository.update_tokens (u_id user) (cost action) s) as [[e|b] s']; reflexivity.
Qed.

End Views.

Lemma request_r_ok {A} (m : RM A) w a w' : m w = (inr a, w') -> request_r m w = (inr a, w').
Proof. unfold request_r. intros ->. reflexivity. Qed.

Lemma request_r_inv {A} (m : RM A) w a w' :
  request_r m w = (inr a, w') -> m w = (inr a, w').
Proof.
  unfold request_r. destruct (m w) as [[e|b] [s' r']]; [discriminate|auto].
Qed.

Lemma filter_all_false {A} (p : A -> bool) l :
  (forall x, In x l -> p x = false) -> filter p l = [].
Proof.
  induction l as [|x l IH]; simpl; intros H; [reflexivity|].
  rewrite H by auto. apply IH. auto.
Qed.

Lemma update_tokens_refused uid c s :
  (forall u, In u (users s) -> u_id u = uid -> u_tokens u < c) ->
  fst (UserRepository.update_tokens uid c s) = inl NotEnoughTokensException.
Proof.
  intros H. unfold UserRepository.update_tokens, bind, get, put, sql_update. simpl.
  replace (filter _ (users s)) with (@nil User); [reflexivity|].
  symmetry. apply filter_all_false. intros u Hu.
  destruct (Nat.eqb (u_id u) uid) eqn:E; [|reflexivity].
  apply Nat.eqb_eq in E. specialize (H u Hu E). simpl.
  rewrite Z.geb_leb. apply Z.leb_gt in H. rewrite H. reflexivity.
Qed.

(** X5: A versioned all-users view (models or predictions) that succeeds for a user marks that user as having seen the data version: viewing again at the same version, from the Redis it left and any store with the same latest version, succeeds without charge and returns the user's balance. *)
Theorem view_charged_once_per_version dumps loads latest rows lk vk sp
    (user user2 : User) (action : ActionType) (s s1 s2 : Store) (r r1 : Redis) res :
  In (lk, vk, sp) view_keys ->
  request_r (versioned_view dumps loads latest rows lk vk sp user action) (s, r) = (inr res, (s1, r1)) ->
  latest s2 = latest s -> u_id user2 = u_id user ->
  exists d r2,
    request_r (versioned_view dumps loads latest rows lk vk sp user2 action) (s2, r1)
    = (inr (mkResult d false (u_tokens user2)), (s2, r2)).
Proof.
  intros Hk H1 Hl Hid. apply request_r_inv in H1.
  destruct (view_keys_distinct _ _ _ Hk) as [Hlv Hsp].
  destruct (latest s) as [v|] eqn:Hv.
  - assert (Hr1 : redis_get (view_seen_key sp user) r1 = Some v /\ redis_get vk r1 = Some v).
    { destruct (view_cache_phase dumps loads latest rows lk vk sp Hk s r v user action Hv)
        as (d & r' & Hver & Hseen & _ & Heq).
      rewrite Heq in H1.
      destruct (opt_eqb (redis_get (view_seen_key sp user) r') v) eqn:Eo.
      - injection H1 as _ _ <-. apply opt_eqb_true in Eo. auto.
      - destruct (UserRepository.update_tokens _ _ s) as [[e|b] s'];
          [discriminate|injection H1 as _ _ <-].
        rewrite !redis_get_set, String.eqb_refl. split; [reflexivity|].
        destruct (Hsp (Fingerprint.string_of_Z (Z.of_nat (u_id user)))) as [_ Hvs].
        unfold view_seen_key. rewrite String.eqb_sym, Hvs. exact Hver. }
    destruct (view_cache_phase dumps loads latest rows lk vk sp Hk s2 r1 v user2 action Hl)
      as (d & r2 & _ & Hseen & _ & Heq).
    exists d, r2. apply request_r_ok. rewrite Heq.
    unfold view_seen_key in Hseen |- *. rewrite Hid in Hseen |- *. rewrite Hseen.
    destruct Hr1 as [Hr1 _]. unfold view_seen_key in Hr1. rewrite Hr1. simpl. rewrite String.eqb_refl.
    reflexivity.
  - exists (Fingerprint.JArr []), r1. apply request_r_ok.
    unfold versioned_view, rbind, db_read. simpl. rewrite Hl. reflexivity.
Qed.

(** X6: A view of a new data version by a user who cannot pay the cost fails with [NotEnoughTokensException], leaves the database as it was and does not mark the user as having seen the version, though the cache version key is updated. *)
Theorem view_refused_not_marked_seen dumps loads latest rows lk vk sp
    (user : User) (action : ActionType) (s : Store) (r : Redis) (v : string) :
  In (lk, vk, sp) view_keys ->
  latest s = Some v ->
  redis_get (sp ++ Fingerprint.string_of_Z (Z.of_nat (u_id user))) r <> Some v ->
  (forall u, In u (users s) -> u_id u = u_id user -> u_tokens u < cost action) ->
  exists r',
    request_r (versioned_view dumps loads latest rows lk vk sp user action) (s, r)
    = (inl (DbError NotEnoughTokensException), (s, r')) /\
    redis_get (sp ++ Fingerprint.string_of_Z (Z.of_nat (u_id user))) r' =
    redis_get (sp ++ Fingerprint.string_of_Z (Z.of_nat (u_id user))) r /\
    redis_get vk r' = Some v.
Proof.
  intros Hk Hv Hns Hpoor.
  destruct (view_cache_phase dumps loads latest rows lk vk sp Hk s r v user action Hv)
    as (d & r' & Hver & Hseen & _ & Heq).
  exists r'. unfold request_r. rewrite Heq. fold (view_seen_key sp user) in Hns |- *.
  rewrite Hseen. destruct (opt_eqb (redis_get (view_seen_key sp user) r) v) eqn:Eo.
  { apply opt_eqb_true in Eo. contradiction. }
  pose proof (update_tokens_refused (u_id user) (cost action) s Hpoor) as Hu.
  destruct (UserRepository.update_tokens _ _ s) as [res s']. simpl in Hu. subst res.
  auto.
Qed.

(** X7: After [invalidate_global_models_cache] (resp. the predictions one), a successful all-users models (resp. predictions) view returns the rows read from the database, not the cached list. *)
Theorem invalidation_then_view_reads_db dumps loads latest rows (user : User)
    (action : ActionType) (s : Store) (r : Redis) (ts v : string) :
  latest s = Some v ->
  (forall res w', request_r (get_all_users_models dumps loads latest rows user action)
                    (snd (invalidate_global_models_cache ts (s, r))) = (inr res, w') ->
                  data res = rows s) /\
  (forall res w', request_r (get_all_users_predictions dumps loads latest rows user action)
                    (snd (invalidate_global_predictions_cache ts (s, r))) = (inr res, w') ->
                  data res = rows s).
Proof.
  intros Hv. split; intros res w' H; apply request_r_inv in H;
    unfold get_all_users_models, get_all_users_predictions in H;
    [ destruct (view_cache_phase dumps loads latest rows "models:all:list" "models:all:version"
                  "models:all:last_seen:" ltac:(simpl; auto) s
                  (redis_delete "models:all:list" (redis_set "models:all:version" ts r)) v user action Hv)
        as (d & r' & _ & _ & Hd & Heq)
    | destruct (view_cache_phase dumps loads latest rows "preds:all:list" "preds:all:version"
                  "preds:all:last_seen:" ltac:(simpl; auto) s
                  (redis_delete "preds:all:list" (redis_set "preds:all:version" ts r)) v user action Hv)
        as (d & r' & _ & _ & Hd & Heq) ];
    (rewrite Hd in Heq by (right; rewrite redis_get_delete, String.eqb_refl; reflexivity));
    cbv [snd invalidate_global_models_cache invalidate_global_predictions_cache rbind
         CacheRepository.set_version CacheRepository.delete fst] in H;
    rewrite Heq in H;
    (destruct (opt_eqb _ v); [injection H as <- _; reflexivity|]);
    (destruct (UserRepository.update_tokens _ _ s) as [[e|b] s']; [discriminate|injection H as <- _; reflexivity]).
Qed.


(** X13: A refused [UserService.delete_user] leaves database and Redis unchanged, and its error has its cause: a confirmation mismatch, a positive balance without the balance confirmation, or no single active user row. *)
Theorem delete_user_refused verify_password user username hashed_password
    confirm_username confirm_password confirm_delete_with_balance ts s r e w :
  request_r (UserService.delete_user verify_password user username hashed_password
               confirm_username confirm_password confirm_delete_with_balance ts) (s, r)
  = (inl e, w) ->
  w = (s, r) /\
  match e with
  | DeleteUserConfirmationException =>
      username <> confirm_username \/ verify_password confirm_password hashed_password = false
  | UserHasRemainingTokensException =>
      username = confirm_username /\ verify_password confirm_password hashed_password = true /\
      0 < u_tokens user /\ confirm_delete_with_balance = false
  | UserAlreadyDeletedException =>
      username = confirm_username /\ verify_password confirm_password hashed_password = true /\
      (u_tokens user <= 0 \/ confirm_delete_with_balance = true) /\
      length (filter (fun u => Nat.eqb (u_id u) (u_id user) && u_is_active u) (users s)) <> 1%nat
  | DbError _ => False
  end.
Proof.
  unfold request_r, UserService.delete_user.
  destruct (String.eqb username confirm_username) eqn:Eu; simpl.
  2: { intros H; injection H as <- <-. split; [reflexivity|]. left. now apply String.eqb_neq. }
  apply String.eqb_eq in Eu.
  destruct (verify_password confirm_password hashed_password) eqn:Ev; simpl.
  2: { intros H; injection H as <- <-. split; [reflexivity|]. now right. }
  destruct (Z.ltb 0 (u_tokens user) && negb confirm_delete_with_balance) eqn:Et; simpl.
  { intros H; injection H as <- <-. split; [reflexivity|].
    apply andb_true_iff in Et as [Et1 Et2]. apply Z.ltb_lt in Et1.
    apply negb_true_iff in Et2. auto. }
  assert (Hguard : u_tokens user <= 0 \/ confirm_delete_with_balance = true).
  { apply andb_false_iff in Et as [Et|Et]; [apply Z.ltb_ge in Et; lia|].
    apply negb_false_iff in Et. auto. }
  unfold rbind, db, UserRepository.delete_user, bind, get, put, ret, sql_update. simpl.
  destruct (Nat.eqb (length (map (fun u => mkUser (u_id u) (u_tokens u) false)
              (filter (fun u => Nat.eqb (u_id u) (u_id user) && u_is_active u) (users s)))) 1)
    eqn:El; simpl.
  - unfold Auth.revoke_all_session_by_user, bind, get, put,
      VersionedView.invalidate_global_models_cache,
      VersionedView.invalidate_global_predictions_cache, CacheRepository.set_version,
      CacheRepository.delete, rbind. simpl. discriminate.
  - intros H; injection H as <- <-. split; [reflexivity|].
    rewrite length_map in El. apply Nat.eqb_neq in El. auto.
Qed.

Lemma in_sql_update_users (p : User -> bool) f l x :
  In x (fst (sql_update p f l)) -> (p x = false /\ In x l) \/ (exists y, In y l /\ p y = true /\ x = f y).
Proof.
  simpl. intros H. apply in_map_iff in H as (y & <- & Hy).
  destruct (p y) eqn:E; [right; eauto|left; auto].
Qed.

(** X14: After a successful [UserService.delete_user] every row of the user is inactive, every session of the user is revoked so rotating with its token fails with [InvalidTokenException], and both global cache version keys hold the given timestamp. *)
Theorem delete_user_effect verify_password user username hashed_password
    confirm_username confirm_password confirm_delete_with_balance ts s r s' r' :
  request_r (UserService.delete_user verify_password user username hashed_password
               confirm_username confirm_password confirm_delete_with_balance ts) (s, r)
  = (inr tt, (s', r')) ->
  (forall u, In u (users s') -> u_id u = u_id user -> u_is_active u = false) /\
  (forall x, In x (auth_sessions s') -> s_user_id x = u_id user -> s_revoked x = true) /\
  (forall hash_token tok now new_raw x,
     find (fun r => String.eqb (s_refresh_token_hash r) (hash_token tok)) (auth_sessions s') = Some x ->
     s_user_id x = u_id user ->
     request (Auth.rotate_refresh_token hash_token tok now new_raw) s' = (inl InvalidTokenException, s')) /\
  redis_get "models:all:version" r' = Some ts /\ redis_get "preds:all:version" r' = Some ts.
Proof.
  unfold request_r, UserService.delete_user.
  destruct (negb (String.eqb username confirm_username)
            || negb (verify_password confirm_password hashed_password)); [discriminate|].
  destruct (Z.ltb 0 (u_tokens user) && negb confirm_delete_with_balance); [discriminate|].
  unfold rbind, db, UserRepository.delete_user, bind, get, put, ret. cbn [fst snd].
  destruct (sql_update (fun u => Nat.eqb (u_id u) (u_id user) && u_is_active u)
              (fun u => mkUser (u_id u) (u_tokens u) false) (users s)) as [t' rows] eqn:Eupd.
  simpl. destruct (Nat.eqb (length rows) 1); simpl; [|discriminate].
  unfold Auth.revoke_all_session_by_user, bind, get, put,
    VersionedView.invalidate_global_models_cache,
    VersionedView.invalidate_global_predictions_cache, CacheRepository.set_version,
    CacheRepository.delete, rbind. simpl.
  intros H; injection H as <- <-.
  assert (Husers : forall u, In u t' -> u_id u = u_id user -> u_is_active u = false).
  { intros u Hu Hid.
    assert (Hu' : In u (fst (sql_update (fun u => Nat.eqb (u_id u) (u_id user) && u_is_active u)
              (fun u => mkUser (u_id u) (u_tokens u) false) (users s)))) by (rewrite Eupd; exact Hu).
    apply in_sql_update_users in Hu' as [[Hp _]|(y & _ & _ & ->)]; [|reflexivity].
    rewrite Hid, Nat.eqb_refl in Hp. exact Hp. }
  split; [exact Husers|]. split; [|split; [|split]].
  - intros x Hx Hid. simpl in Hx. apply in_map_iff in Hx as (y & <- & Hy).
    destruct (Nat.eqb (s_user_id y) (u_id user)) eqn:E; [reflexivity|].
    simpl in Hid. apply Nat.eqb_neq in E. contradiction.
  - intros hash_token tok now new_raw x Hf Hid.
    unfold request, Auth.rotate_refresh_token, Auth.get_refresh_token, bind, get, ret.
    cbn zeta. rewrite Hf. simpl. rewrite Hid.
    unfold find_user. simpl.
    destruct (find (fun u => Nat.eqb (u_id u) (u_id user)) t') as [u|] eqn:Eu; simpl; [|reflexivity].
    apply find_some in Eu as [Hin Heq]. apply Nat.eqb_eq in Heq.
    rewrite (Husers u Hin Heq). reflexivity.
  - reflexivity.
  - reflexivity.
Qed.

Lemma filter_first {A} (p q : A -> bool) l u :
  find p l = Some u -> q u = true -> (forall x, q x = true -> p x = true) ->
  exists rest, filter q l = u :: rest.
Proof.
  induction l as [|x l IH]; simpl; [discriminate|]. intros Hf Hq Hqp.
  destruct (p x) eqn:Ep.
  - injection Hf as ->. rewrite Hq. eauto.
  - destruct (q x) eqn:Eq; [rewrite (Hqp x Eq) in Ep; discriminate|]. auto.
Qed.

Lemma update_tokens_ok uid c s u :
  find (fun u => Nat.eqb (u_id u) uid) (users s) = Some u -> c <= u_tokens u ->
  exists s', UserRepository.update_tokens uid c s = (inr (u_tokens u - c), s') /\
    s' = set_users (fun _ => fst (sql_update (fun u => Nat.eqb (u_id u) uid && Z.geb (u_tokens u) c)
               (fun u => UserRepository.with_tokens u (u_tokens u - c)) (users s))) s.
Proof.
  intros Hf Hc.
  destruct (filter_first _ (fun u => Nat.eqb (u_id u) uid && Z.geb (u_tokens u) c) _ _ Hf)
    as [rest Hfl].
  - apply andb_true_iff. split; [apply find_some in Hf; tauto|]. apply Z.geb_le. lia.
  - intros x Hx. apply andb_true_iff in Hx. tauto.
  - unfold UserRepository.update_tokens, bind, get, put, ret, sql_update. simpl.
    rewrite Hfl. simpl. eexists. split; reflexivity.
Qed.

Lemma sql_update_app_fresh {R} (p : R -> bool) (f : R -> R) l r0 :
  (forall r, In r l -> p r = false) -> p r0 = true ->
  sql_update p f (l ++ [r0])%list = ((l ++ [f r0])%list, [f r0]).
Proof.
  intros Hl Hr. unfold sql_update. rewrite map_app, filter_app. simpl. rewrite Hr.
  assert (E1 : map (fun r => if p r then f r else r) l = l).
  { rewrite <- (map_id l) at 2. apply map_ext_in. intros a Ha. now rewrite Hl. }
  assert (E2 : filter p l = []).
  { clear E1 Hr. induction l as [|a l IH]; [reflexivity|]. simpl. rewrite Hl by (now left).
    apply IH. intros r Hr'. apply Hl. now right. }
  rewrite E1, E2. reflexivity.
Qed.

Lemma tm_mark_applied_fresh id m s tms r0 :
  trained_models s = (tms ++ [r0])%list -> (forall r, In r tms -> tm_id r <> id) ->
  tm_id r0 = id -> tm_status r0 = pending ->
  TMRepo.mark_applied id m s =
    (inr (Some (TMRepo.with_status r0 applied (Some m))),
     set_trained_models (fun _ => (tms ++ [TMRepo.with_status r0 applied (Some m)])%list) s).
Proof.
  intros Ht Hl Hid Hst. unfold TMRepo.mark_applied, bind, get, put, ret.
  rewrite Ht, sql_update_app_fresh; [reflexivity| |].
  - intros r Hr. apply andb_false_iff. left. apply Nat.eqb_neq. auto.
  - rewrite Hid, Hst, Nat.eqb_refl. reflexivity.
Qed.

Lemma existsb_filter_false {A} (p q : A -> bool) l :
  existsb p l = false -> existsb p (filter q l) = false.
Proof.
  induction l as [|x l IH]; simpl; auto. intros H. apply orb_false_iff in H as [H1 H2].
  destruct (q x); simpl; [rewrite H1|]; auto.
Qed.

Lemma existsb_drop x l : existsb (String.eqb x) (Files.drop x l) = false.
Proof.
  unfold Files.drop. induction l as [|y l IH]; simpl; auto.
  destruct (String.eqb y x) eqn:E; simpl; auto.
  rewrite IH, orb_false_r. apply String.eqb_neq. intros <-. rewrite String.eqb_refl in E. discriminate.
Qed.

Lemma temp_path_neq final_path : Files.temp_path_for final_path <> final_path.
Proof.
  unfold Files.temp_path_for. intros H. apply (f_equal String.length) in H.
  induction final_path as [|c f IH]; simpl in H; [discriminate|]. injection H. auto.
Qed.

(** X15: A training submission with a fresh fingerprint by a user who can pay, whose worker succeeds, appends one applied row with the metrics, charges the cost, moves the artifact to its final path, and counts one compute run. *)
Theorem train_model_fresh_success uid fp final_path metrics action s u :
  existsb (TMRepo.user_fp uid fp) (trained_models s) = false ->
  (forall r, In r (trained_models s) -> tm_id r <> next_id s) ->
  find (fun u => Nat.eqb (u_id u) uid) (users s) = Some u -> cost action <= u_tokens u ->
  existsb (String.eqb (Files.temp_path_for final_path)) (fs_locked (fs s)) = false ->
  existsb (String.eqb final_path) (fs_locked (fs s)) = false ->
  let row := mkTM (next_id s) uid fp applied (Some metrics) final_path in
  exists s', request (TrainService.train_model uid fp final_path (WorkerOk metrics) action) s
             = (inr (mkResult row true (u_tokens u - cost action)), s') /\
    trained_models s' = (trained_models s ++ [row])%list /\
    Files.exists_path (fs s') final_path = true /\
    Files.exists_path (fs s') (Files.temp_path_for final_path) = false /\
    compute_runs s' = S (compute_runs s) /\ next_id s' = S (next_id s).
Proof.
  intros Hfresh Hid Hu Hc Hlt Hlf row.
  unfold request, TrainService.train_model, TrainService.gate, TMRepo.try_insert_pending,
    bind, get, put, ret.
  cbn beta iota zeta. rewrite Hfresh.
  unfold TrainService.run_worker, bind, get, put, ret.
  cbn beta iota zeta.
  set (row0 := mkTM (next_id s) uid fp pending None final_path).
  set (tmp := Files.temp_path_for final_path).
  set (s2 := set_fs _ _).
  destruct (update_tokens_ok uid (cost action) s2 u Hu Hc) as (s3 & Hut & Hs3).
  unfold TrainService.charge_and_apply, bind. rewrite Hut. cbn beta iota.
  rewrite (tm_mark_applied_fresh (next_id s) metrics s3 (trained_models s) row0).
  2: { subst s3. reflexivity. }
  2: exact Hid.
  2, 3: reflexivity.
  cbn beta iota.
  unfold TrainService.publish, Files.move_temp_to_final, bind, get, put, ret.
  unfold Files.os_replace, Files.exists_path. subst s3 s2. cbn [fs set_trained_models set_users set_fs bump_compute bump_id fs_files fs_locked existsb].
  unfold tmp. rewrite String.eqb_refl, Hlt, Hlf. simpl.
  eexists. split; [reflexivity|]. simpl.
  split; [reflexivity|]. split; [now rewrite String.eqb_refl|].
  split; [|split; reflexivity].
  rewrite (proj2 (String.eqb_neq _ _) (temp_path_neq final_path)), String.eqb_refl. simpl.
  apply existsb_filter_false, existsb_filter_false, existsb_drop.
Qed.

Lemma pred_mark_applied_fresh id m s ps r0 :
  predictions s = (ps ++ [r0])%list -> (forall r, In r ps -> p_id r <> id) ->
  p_id r0 = id -> p_status r0 = pending ->
  PRepo.mark_applied id m s =
    (inr (Some (PRepo.with_status r0 applied m)),
     set_predictions (fun _ => (ps ++ [PRepo.with_status r0 applied m])%list) s).
Proof.
  intros Ht Hl Hid Hst. unfold PRepo.mark_applied, bind, get, put, ret.
  rewrite Ht, sql_update_app_fresh; [reflexivity| |].
  - intros r Hr. apply andb_false_iff. left. apply Nat.eqb_neq. auto.
  - rewrite Hid, Hst, Nat.eqb_refl. reflexivity.
Qed.

(** X16: A prediction with a fresh fingerprint against the user's applied model whose artifact exists and loads ([LoadOk]), by a user who can pay, whose worker succeeds, appends one applied prediction row with the result, charges the cost and counts one compute run. *)
Theorem predict_fresh_success uid model_id fp result action s u m :
  find (fun r => Nat.eqb (tm_id r) model_id && Nat.eqb (tm_user_id r) uid
                 && RowStatus_eqb (tm_status r) applied) (trained_models s) = Some m ->
  Files.exists_path (fs s) (tm_model_path m) = true ->
  existsb (PRepo.user_fp uid fp) (predictions s) = false ->
  (forall r, In r (predictions s) -> p_id r <> next_id s) ->
  find (fun u => Nat.eqb (u_id u) uid) (users s) = Some u -> cost action <= u_tokens u ->
  let row := mkPred (next_id s) uid model_id fp applied result in
  exists s', request (PredictService.predict uid model_id fp LoadOk (PredictOk result) action) s
             = (inr (mkResult row true (u_tokens u - cost action)), s') /\
    predictions s' = (predictions s ++ [row])%list /\
    compute_runs s' = S (compute_runs s) /\ next_id s' = S (next_id s).
Proof.
  intros Hm Hex Hfresh Hid Hu Hc row.
  unfold request, PredictService.predict, PredictService.load_model_row_for_user,
    PRepo.get_model_for_user_applied, bind at 1 2 3, get at 1, ret at 1.
  cbn beta iota. rewrite Hm. cbn beta iota.
  unfold bind at 1, get at 1. cbn beta iota. rewrite Hex.
  unfold PredictService.gate, PRepo.try_insert_pending, bind, get, put, ret.
  cbn beta iota zeta. rewrite Hfresh.
  unfold PredictService.run_prediction, bind, get, put, ret.
  cbn beta iota zeta.
  set (row0 := mkPred (next_id s) uid model_id fp pending "").
  set (s2 := bump_compute _).
  destruct (update_tokens_ok uid (cost action) s2 u Hu Hc) as (s3 & Hut & Hs3).
  unfold PredictService.charge_and_apply, bind. rewrite Hut. cbn beta iota.
  rewrite (pred_mark_applied_fresh (next_id s) result s3 (predictions s) row0).
  2: { subst s3. reflexivity. }
  2: exact Hid.
  2, 3: reflexivity.
  cbn beta iota. eexists. split; [reflexivity|].
  subst s3 s2. split; [reflexivity|split; reflexivity].
Qed.

(** ** Witnesses of the further properties *)

Lemma logistic_accepted_pairs_witness :
  exists penalty solver,
    get_or "penalty" (PyStr "l2") [("penalty", PyStr "elasticnet"); ("solver", PyStr "saga")] = PyStr penalty /\
    get_or "solver" (PyStr "lbfgs") [("penalty", PyStr "elasticnet"); ("solver", PyStr "saga")] = PyStr solver /\
    In (penalty, solver)
       [("l2", "lbfgs"); ("l2", "newton-cg"); ("l2", "saga"); ("l2", "liblinear");
        ("l1", "liblinear"); ("l1", "saga"); ("elasticnet", "saga");
        ("none", "lbfgs"); ("none", "newton-cg"); ("none", "saga")].
Proof.
  apply (logistic_accepted_pairs [("penalty", PyStr "elasticnet"); ("solver", PyStr "saga")]).
  reflexivity.
Defined.

Lemma view_charged_once_per_version_witness :
  exists d r2,
    request_r (wv_view (mkUser 1 20 true)) (c1_store, snd (snd (request_r (wv_view (mkUser 1 20 true)) (c1_store, []))))
    = (inr (mkResult d false 20), (c1_store, r2)).
Proof.
  destruct (request_r (wv_view (mkUser 1 20 true)) (c1_store, [])) as [[e|res] [s1 r1]] eqn:E.
  - vm_compute in E. discriminate.
  - exact (view_charged_once_per_version (fun _ => "x") (fun _ => None) (fun _ => Some "v")
             (fun _ => Fingerprint.JArr []) "models:all:list" "models:all:version" "models:all:last_seen:"
             (mkUser 1 20 true) (mkUser 1 20 true) METADATA c1_store s1 c1_store [] r1 res
             (or_introl eq_refl) E eq_refl eq_refl).
Defined.

Lemma view_refused_not_marked_seen_witness :
  exists r',
    request_r (wv_view (mkUser 1 0 false)) (c10_store, [])
    = (inl (DbError NotEnoughTokensException), (c10_store, r')) /\
    redis_get "models:all:last_seen:1" r' = redis_get "models:all:last_seen:1" [] /\
    redis_get "models:all:version" r' = Some "v".
Proof.
  apply (view_refused_not_marked_seen (fun _ => "x") (fun _ => None) (fun _ => Some "v")
           (fun _ => Fingerprint.JArr []) "models:all:list" "models:all:version" "models:all:last_seen:"
           (mkUser 1 0 false) METADATA c10_store [] "v").
  - simpl; auto.
  - reflexivity.
  - discriminate.
  - intros u [<-|[]] _. simpl. lia.
Defined.

Lemma invalidation_then_view_reads_db_witness :
  let latest := fun _ : Store => Some "v" in
  let rows := fun s : Store => Fingerprint.JArr (map (fun u => Fingerprint.JNull) (users s)) in
  let r := [("models:all:list", "cached"); ("models:all:version", "v");
            ("preds:all:list", "cached"); ("preds:all:version", "v")] in
  (forall res w', request_r (get_all_users_models (fun _ => "x") (fun _ => Some (Fingerprint.JArr [])) latest rows
                              (mkUser 1 20 true) METADATA)
                    (snd (invalidate_global_models_cache "t" (c1_store, r))) = (inr res, w') ->
                  data res = rows c1_store) /\
  (forall res w', request_r (get_all_users_predictions (fun _ => "x") (fun _ => Some (Fingerprint.JArr [])) latest rows
                              (mkUser 1 20 true) METADATA)
                    (snd (invalidate_global_predictions_cache "t" (c1_store, r))) = (inr res, w') ->
                  data res = rows c1_store).
Proof.
  intros latest rows r.
  apply (invalidation_then_view_reads_db (fun _ => "x") (fun _ => Some (Fingerprint.JArr [])) latest rows
           (mkUser 1 20 true) METADATA c1_store r "t" "v").
  reflexivity.
Defined.

Lemma rate_limit_sliding_window_witness :
  snd (run 2 10 [0; 1; 5; 12; 13; 30] None []) = [30; 13; 12; 1; 0] /\ 10 <= 13 - 1.
Proof.
  split; [vm_compute; reflexivity|].
  apply (rate_limit_sliding_window 2 10 [0; 1; 5; 12; 13; 30]) with (i := 1%nat).
  - lia.
  - repeat constructor; lia.
  - vm_compute. reflexivity.
  - vm_compute. reflexivity.
Defined.

Lemma rate_limit_refusal_witness :
  Some (mkRL [3] 100) = Some (mkRL [3] 100) /\ 1 <= 8 /\
  (Forall (fun x => x <= 5) (lrange 5 (Some (mkRL [3] 100))) -> 8 <= 10).
Proof.
  apply (rate_limit_refusal 1 10 5 (Some (mkRL [3] 100)) 8 (Some (mkRL [3] 100))).
  reflexivity.
Defined.

Lemma session_refresh_chain_witness :
  exists s1,
    request (issue_refresh_token demo_hash 1 0 "R0" "S") c3_store = (inr "R0", s1) /\
    fst (refresh_sequence demo_hash "R0" [(100, "R1"); (3000, "R2")] s1) = inr "R2".
Proof.
  apply (session_refresh_chain demo_hash c3_store 1 (mkUser 1 5 true) 0 "R0" "S"
           [(100, "R1"); (3000, "R2")]).
  - reflexivity.
  - reflexivity.
  - intros [].
  - repeat constructor; simpl; intuition discriminate.
  - intros raw _ [].
  - simpl. lia.
Defined.

Lemma delete_user_refused_witness :
  (c10_store, @nil (string * string)) = (c10_store, []) /\
  "alice" = "alice" /\ String.eqb "pw" "pw" = true /\
  (u_tokens (mkUser 1 0 false) <= 0 \/ false = true) /\
  length (filter (fun u => Nat.eqb (u_id u) 1 && u_is_active u) (users c10_store)) <> 1%nat.
Proof.
  apply (delete_user_refused String.eqb (mkUser 1 0 false) "alice" "pw" "alice" "pw" false "t"
           c10_store [] UserAlreadyDeletedException (c10_store, [])).
  reflexivity.
Defined.

Lemma delete_user_effect_witness :
  exists s' r',
    request_r (UserService.delete_user String.eqb (mkUser 1 20 true) "alice" "pw" "alice" "pw" true "t")
      (c1_store, []) = (inr tt, (s', r')) /\
  (forall u, In u (users s') -> u_id u = 1%nat -> u_is_active u = false) /\
  (forall x, In x (auth_sessions s') -> s_user_id x = 1%nat -> s_revoked x = true) /\
  (forall hash_token tok now new_raw x,
     find (fun r => String.eqb (s_refresh_token_hash r) (hash_token tok)) (auth_sessions s') = Some x ->
     s_user_id x = 1%nat ->
     request (rotate_refresh_token hash_token tok now new_raw) s' = (inl InvalidTokenException, s')) /\
  redis_get "models:all:version" r' = Some "t" /\ redis_get "preds:all:version" r' = Some "t".
Proof.
  do 2 eexists. split; [reflexivity|].
  apply (delete_user_effect String.eqb (mkUser 1 20 true) "alice" "pw" "alice" "pw" true "t"
           c1_store []).
  reflexivity.
Defined.

Lemma train_model_fresh_success_witness :
  exists s', request (TrainService.train_model 1 "fp" "m.pkl" (WorkerOk "{}") TRAINING) c6_store
             = (inr (mkResult (mkTM 10 1 "fp" applied (Some "{}") "m.pkl") true 40), s') /\
    trained_models s' = [mkTM 10 1 "fp" applied (Some "{}") "m.pkl"] /\
    Files.exists_path (fs s') "m.pkl" = true /\
    Files.exists_path (fs s') (Files.temp_path_for "m.pkl") = false /\
    compute_runs s' = 1%nat /\ next_id s' = 11%nat.
Proof.
  apply (train_model_fresh_success 1 "fp" "m.pkl" "{}" TRAINING c6_store (mkUser 1 50 true)).
  - reflexivity.
  - intros r [].
  - reflexivity.
  - simpl. lia.
  - reflexivity.
  - reflexivity.
Defined.

Lemma predict_fresh_success_witness :
  exists s', request (PredictService.predict 1 7 "pg" LoadOk (PredictOk "4.0") PREDICTION) c8_store
             = (inr (mkResult (mkPred 5 1 7 "pg" applied "4.0") true 15), s') /\
    predictions s' = [mkPred 4 1 7 "pf" failed "3.5"; mkPred 5 1 7 "pg" applied "4.0"] /\
    compute_runs s' = 1%nat /\ next_id s' = 6%nat.
Proof.
  apply (predict_fresh_success 1 7 "pg" "4.0" PREDICTION c8_store (mkUser 1 20 true)
           (mkTM 7 1 "tfp" applied (Some "{}") "m.pkl")).
  - reflexivity.
  - reflexivity.
  - reflexivity.
  - intros r [<-|[]]. discriminate.
  - reflexivity.
  - simpl. lia.
Defined.
